(** * ac-ecosys-monitor: the probe-fusion engine of [server-monitor.js]

    A shallow embedding of the [ServerMonitor] class: the ping wait
    parameter, dot-path resolution, the API probe's outcome, the per-kind
    status fusion of [checkServer], the SSH result cache with its shared
    outcome objects, and the positional collection of [checkAllServers]. *)

From Stdlib Require Import ZArith Lia Ascii.
From stdpp Require Import base option list strings gmap pretty.

Set Warnings "-register-all".
Set Default Proof Using "Type".

Local Open Scope Z_scope.
Local Open Scope string_scope.

(** ** JavaScript completions

    A JavaScript computation either completes normally with a value or
    throws. Exceptions raised by the probes are [Error] objects; the
    only part of them the program reads is [message]. *)

Inductive Completion (A : Type) : Type :=
  | Normal (a : A)
  | Throw (message : string).

Arguments Normal {A} a.
Arguments Throw {A} message.

#[global] Instance Completion_ret : MRet Completion := fun A a => Normal a.

#[global] Instance Completion_bind : MBind Completion := fun A B k c =>
  match c with
  | Normal a => k a
  | Throw m => Throw m
  end.

(** [try { body } catch (e) { handler(e.message) }]. *)
Definition try_catch {A : Type} (body : Completion A) (handler : string -> A)
  : A :=
  match body with
  | Normal a => a
  | Throw m => handler m
  end.

(** ** JavaScript values

    The values [JSON.parse] produces and a configuration holds. Numbers
    are the integer-valued ones; strings are sequences of one-byte
    characters. [JNative] stands for a function or object the runtime
    itself provides (what the prototype chain holds), named by [name].
    Objects keep their properties in insertion order, the first binding
    of a key being the live one. *)

Inductive JsVal : Type :=
  | JUndefined
  | JNull
  | JBool (b : bool)
  | JNum (n : Z)
  | JStr (s : string)
  | JArr (items : list JsVal)
  | JObj (props : list (string * JsVal))
  | JNative (name : string).

(** JavaScript truthiness of the values above. *)
Definition truthy (v : JsVal) : bool :=
  match v with
  | JUndefined | JNull => false
  | JBool b => b
  | JNum n => negb (n =? 0)%Z
  | JStr s => negb (String.eqb s "")
  | JArr _ | JObj _ | JNative _ => true
  end.

(** [a === b] between a freshly parsed value and a configured one:
    primitives compare by type and value, objects and arrays by identity,
    and a parsed object is never the configured object. *)
Definition strict_eq (a b : JsVal) : bool :=
  match a, b with
  | JUndefined, JUndefined => true
  | JNull, JNull => true
  | JBool x, JBool y => Bool.eqb x y
  | JNum x, JNum y => (x =? y)%Z
  | JStr x, JStr y => String.eqb x y
  | _, _ => false
  end.

(** ** [String.prototype.split] on a one-character separator *)

Fixpoint split_on (sep : ascii) (s : string) : list string :=
  match s with
  | EmptyString => [EmptyString]
  | String c rest =>
      if Ascii.eqb c sep then EmptyString :: split_on sep rest
      else match split_on sep rest with
           | hd :: tl => String c hd :: tl
           | [] => [String c EmptyString]
           end
  end.

(** ** Own properties

    A property name is an array index when it is the canonical decimal
    spelling of a natural number. *)

Definition digit_of (c : ascii) : option N :=
  let n := N_of_ascii c in
  if ((48 <=? n) && (n <=? 57))%N then Some (n - 48)%N else None.

Fixpoint parse_digits (s : string) (acc : N) : option N :=
  match s with
  | EmptyString => Some acc
  | String c rest =>
      match digit_of c with
      | Some d => parse_digits rest (10 * acc + d)%N
      | None => None
      end
  end.

Definition array_index (k : string) : option N :=
  match k with
  | EmptyString => None
  | String "0" EmptyString => Some 0%N
  | String "0" _ => None
  | _ => parse_digits k 0%N
  end.

Fixpoint assoc (k : string) (props : list (string * JsVal)) : option JsVal :=
  match props with
  | [] => None
  | (k', v) :: rest => if String.eqb k k' then Some v else assoc k rest
  end.

Definition char_at (s : string) (i : nat) : option JsVal :=
  match String.get i s with
  | Some c => Some (JStr (String c EmptyString))
  | None => None
  end.

(** The own property [k] of a value, when it has one: the keys of an
    object, the indices and [length] of an array or a string. *)
Definition own_property (v : JsVal) (k : string) : option JsVal :=
  match v with
  | JObj props => assoc k props
  | JArr items =>
      if String.eqb k "length" then Some (JNum (Z.of_nat (length items)))
      else match array_index k with
           | Some i => items !! N.to_nat i
           | None => None
           end
  | JStr s =>
      if String.eqb k "length" then Some (JNum (Z.of_nat (String.length s)))
      else match array_index k with
           | Some i => char_at s (N.to_nat i)
           | None => None
           end
  | _ => None
  end.

(** ** The ping wait parameter *)

(** [const PING_IN_MILLISECONDS = isLinux ? 1000 : 1]. *)
Definition PING_IN_MILLISECONDS (isLinux : bool) : Z :=
  if isLinux then 1000 else 1.

(** [Math.floor(timeout / PING_IN_MILLISECONDS)], the argument of [-W]. *)
Definition ping_wait (isLinux : bool) (timeout : Z) : Z :=
  timeout / PING_IN_MILLISECONDS isLinux.

(** The command line [ping] runs. *)
Definition ping_command (isLinux : bool) (target : string) (timeout : Z)
  : string :=
  "ping -c 1 -W " ++ pretty (ping_wait isLinux timeout) ++ " " ++ target.

(** ** Operators and conversions of the language *)

(** [a || b] and [a && b]. *)
Definition js_or (a b : JsVal) : JsVal := if truthy a then a else b.
Definition js_and (a b : JsVal) : JsVal := if truthy a then b else a.

(** A value inside a template literal. *)
Definition template (v : JsVal) : string :=
  match v with
  | JUndefined => "undefined"
  | JNull => "null"
  | JBool true => "true"
  | JBool false => "false"
  | JNum n => pretty n
  | JStr s => s
  | JArr _ => ""
  | JObj _ => "[object Object]"
  | JNative n => n
  end.

(** An optional configuration field as a value: absent is [undefined]. *)
Definition of_num (o : option Z) : JsVal := from_option JNum JUndefined o.
Definition of_str (o : option string) : JsVal := from_option JStr JUndefined o.

(** Truthiness of an optional string: present and not empty. *)
Definition nonempty (o : option string) : bool := truthy (of_str o).

(** [haystack.includes(needle)]. *)
Fixpoint includes (haystack needle : string) : bool :=
  String.prefix needle haystack ||
  match haystack with
  | EmptyString => false
  | String _ rest => includes rest needle
  end.

(** ** The API probe's outcome *)

(** [expectedResponse] of a target: [{ path, value }]. *)
Record ExpectedResponse : Type := {
  path : string;
  value : JsVal
}.

(** [responseCheckDetails]. [parseError] is present (and [true]) only on
    the object the inner [catch] builds. *)
Record ResponseCheckDetails : Type := {
  rcd_path : string;
  rcd_expected : JsVal;
  rcd_actual : JsVal;
  rcd_match : bool;
  rcd_parseError : bool
}.

(** What [checkApi] resolves with. [statusCode] and [error] are [null]
    when [None]; [responseOk] is [true], [false] or [null]. *)
Record ApiResult : Type := {
  success : bool;
  statusCode : option Z;
  statusOk : bool;
  responseOk : option bool;
  responseCheckDetails : option ResponseCheckDetails;
  error : option string
}.

(** What happens to the request first: [protocol.get] throws while the
    promise is being set up, the response ends, the request emits
    [error] or [timeout], or the timer of [setTimeout] fires. Only the
    first [resolve] of a promise counts. *)
Inductive HttpEvent : Type :=
  | HttpThrows (message : string)
  | HttpResponse (code : Z) (data : string)
  | HttpError (message : string)
  | HttpRequestTimeout
  | HttpTimerFired.

(** The object every failure path of [checkApi] resolves with. *)
Definition api_failure (message : string) : ApiResult :=
  {| success := false; statusCode := None; statusOk := false;
     responseOk := None; responseCheckDetails := None;
     error := Some message |}.

(** ** Targets, outcomes and results *)

(** [server.type]; any other string is [TOther]. *)
Inductive ServerType : Type :=
  | TPing
  | TSsh
  | TApi
  | TAll
  | TOther (name : string).

Inductive Status : Type :=
  | UP
  | DOWN
  | DEGRADED
  | UNHEALTHY
  | MAINTENANCE
  | ERROR.

#[global] Instance Status_eq_dec : EqDecision Status.
Proof. solve_decision. Defined.

(** The [statusCode] of a result: a mark, an HTTP code or ['N/A']. *)
Inductive Label : Type :=
  | Mark (s : string)
  | Code (n : Z).

(** [server.ssh] of a unified target. *)
Module SshConfig.
Record t : Type := {
  enabled : bool;
  host : option string;
  port : option Z;
  username : option string;
  checkInterval : option Z
}.
End SshConfig.

(** A configured target. Optional fields are [None] when unset. *)
Module Server.
Record t : Type := {
  name : string;
  type : ServerType;
  target : string;
  apiTarget : string;
  timeout : Z;
  expectedStatus : Z;
  expectedResponse : option ExpectedResponse;
  host : string;
  port : option Z;
  username : option string;
  sshCheckInterval : option Z;
  ssh : option SshConfig.t;
  lastCheck : option string;
  groupName : option string
}.

Definition set_groupName (g : string) (s : t) : t :=
  {| name := name s; type := type s; target := target s;
     apiTarget := apiTarget s; timeout := timeout s;
     expectedStatus := expectedStatus s;
     expectedResponse := expectedResponse s; host := host s;
     port := port s; username := username s;
     sshCheckInterval := sshCheckInterval s; ssh := ssh s;
     lastCheck := lastCheck s; groupName := Some g |}.
End Server.

(** An element of the configured list: a target, or an object of type
    ['group'] with a name and its own list of targets. *)
Inductive Entry : Type :=
  | Leaf (server : Server.t)
  | Group (name : string) (servers : list Server.t).

(** The object [checkSSH] resolves with. The timeout path builds it
    without [lastCheck]; [timestamp] appears once a cache hit of an
    ssh target has written it. *)
Module SshResult.
Record t : Type := {
  success : bool;
  error : option string;
  motd : option string;
  rebootRequired : bool;
  updates : option string;
  lastCheck : option string;
  timestamp : option Z
}.

Definition set_timestamp (ts : Z) (r : t) : t :=
  {| success := success r; error := error r; motd := motd r;
     rebootRequired := rebootRequired r; updates := updates r;
     lastCheck := lastCheck r; timestamp := Some ts |}.

#[global] Instance inhabited : Inhabited t :=
  populate {| success := false; error := None; motd := None;
              rebootRequired := false; updates := None;
              lastCheck := None; timestamp := None |}.
End SshResult.

(** [details] of a result, by the branch that built it. *)
Inductive Details : Type :=
  | NoDetails
  | SshDetails (rebootRequired : bool) (updates : option string)
  | ApiDetails (statusOk : bool) (responseOk : option bool)
      (responseCheckDetails : option ResponseCheckDetails)
      (statusDetails : option string)
  | AllDetails (pingOk apiStatusOk : bool) (responseOk : option bool)
      (responseCheckDetails : option ResponseCheckDetails)
      (statusDetails : option string)
      (sshRebootRequired : option bool) (sshUpdates : option string).

(** What [checkServer] returns. [sshInfo] is the address of the shared
    [checkSSH] outcome object, not a copy of it. *)
Module Result.
Record t : Type := {
  name : string;
  type : ServerType;
  target : string;
  status : Status;
  statusCode : Label;
  lastCheck : string;
  error : option string;
  details : Details;
  sshInfo : option nat;
  groupName : option string
}.

Definition set_groupName (g : string) (r : t) : t :=
  {| name := name r; type := type r; target := target r;
     status := status r; statusCode := statusCode r;
     lastCheck := lastCheck r; error := error r; details := details r;
     sshInfo := sshInfo r; groupName := Some g |}.
End Result.

(** An entry of [this.sshCache]: [{ result, timestamp }], [result]
    being the address of the outcome object. *)
Record CacheEntry : Type := {
  entry_result : nat;
  entry_timestamp : Z
}.

(** The monitor's mutable state: the objects [checkSSH] has resolved
    with, by address; [this.sshCache], by cache key; and the trace of
    the cache keys [checkSSH] was invoked for, latest first. *)
Record Monitor : Type := {
  objects : gmap nat SshResult.t;
  sshCache : gmap string CacheEntry;
  probes : list string
}.

Definition new_monitor : Monitor :=
  {| objects := ∅; sshCache := ∅; probes := [] |}.

(** ** What the outside world does during one evaluation *)

(** [execPromise] resolves with the two streams or rejects. *)
Inductive PingEvent : Type :=
  | ExecResolved (stdout stderr : string)
  | ExecRejected.

(** [spawn] throws, the 15 s timer fires first, or the session closes
    with the collected output. *)
Inductive SshEvent : Type :=
  | SshThrows (message : string)
  | SshTimerFired
  | SshClosed (output : string).

(** The events of one evaluation and the clock readings it takes:
    [Date.now()] when the cache is consulted, the time the SSH session
    closes, [Date.now()] when the entry is stored, and the time the
    result object is built. *)
Record World : Type := {
  ping_event : PingEvent;
  http_event : HttpEvent;
  ssh_event : SshEvent;
  now_lookup : Z;
  now_closed : Z;
  now_stored : Z;
  now_result : Z
}.

(** ** A small runtime to run the model on

    Enough of a runtime to evaluate the definitions on concrete inputs:
    objects inherit [constructor], the built-in it names has the
    throwing [caller] accessor, the parser reads the literals [null],
    [true], [false] and unsigned integers, a time is shown as its number
    of milliseconds, and the two patterns match nothing. *)

Definition sample_inherited (v : JsVal) (k : string) : Completion JsVal :=
  match v with
  | JObj _ =>
      if String.eqb k "constructor" then Normal (JNative "Object")
      else Normal JUndefined
  | JNative "Object" =>
      if String.eqb k "caller"
      then Throw "'caller', 'callee', and 'arguments' may not be accessed"
      else Normal JUndefined
  | _ => Normal JUndefined
  end.

Definition sample_parse (s : string) : Completion JsVal :=
  if String.eqb s "null" then Normal JNull
  else if String.eqb s "true" then Normal (JBool true)
  else if String.eqb s "false" then Normal (JBool false)
  else match array_index s with
       | Some n => Normal (JNum (Z.of_N n))
       | None => Throw "Unexpected token"
       end.

Definition sample_time (t : Z) : string := pretty t.

Definition no_match (output : string) : option string := None.

Definition sample_server (type : ServerType) : Server.t :=
  {| Server.name := "web"; Server.type := type;
     Server.target := "10.0.0.1"; Server.apiTarget := "http://10.0.0.1/health";
     Server.timeout := 5000; Server.expectedStatus := 200;
     Server.expectedResponse := None; Server.host := "10.0.0.1";
     Server.port := None; Server.username := Some "admin";
     Server.sshCheckInterval := None; Server.ssh := None;
     Server.lastCheck := None; Server.groupName := None |}.

Definition sample_asserting_server : Server.t :=
  {| Server.name := "api"; Server.type := TApi;
     Server.target := "http://10.0.0.1/health"; Server.apiTarget := "";
     Server.timeout := 5000; Server.expectedStatus := 200;
     Server.expectedResponse := Some {| path := "status"; value := JStr "ok" |};
     Server.host := ""; Server.port := None; Server.username := None;
     Server.sshCheckInterval := None; Server.ssh := None;
     Server.lastCheck := None; Server.groupName := None |}.

Definition sample_world (p : PingEvent) (h : HttpEvent) (s : SshEvent)
    (now : Z) : World :=
  {| ping_event := p; http_event := h; ssh_event := s;
     now_lookup := now; now_closed := now + 1; now_stored := now + 2;
     now_result := now + 3 |}.

Section Runtime.

(** What the JavaScript runtime supplies: the read of a member found
    along the prototype chain for a name that is not an own property
    ([JUndefined] when there is none; an inherited accessor may throw),
    and [JSON.parse]. *)
Variable inherited : JsVal -> string -> Completion JsVal.
Variable JSON_parse : string -> Completion JsVal.

(** [getLocaleTimeString] applied to a clock reading, and the first
    capture group of the two patterns [checkSSH] runs over the session
    output ([None] when the pattern does not match). *)
Variable getLocaleTimeString : Z -> string.
Variable updates_match : string -> option string.
Variable security_match : string -> option string.

(** [v[k]]: a [TypeError] on [undefined] and [null], otherwise the own
    property or what reading it off the prototype chain gives. *)
Definition get_member (v : JsVal) (k : string) : Completion JsVal :=
  match v with
  | JUndefined => Throw "Cannot read properties of undefined"
  | JNull => Throw "Cannot read properties of null"
  | _ =>
      match own_property v k with
      | Some x => Normal x
      | None => inherited v k
      end
  end.

(** [v?.[k]]. *)
Definition optional_member (v : JsVal) (k : string) : Completion JsVal :=
  match v with
  | JUndefined | JNull => Normal JUndefined
  | _ => get_member v k
  end.

(** [props.reduce((current, prop) => current?.[prop], obj)]. *)
Fixpoint reduce_path (current : JsVal) (props : list string)
  : Completion JsVal :=
  match props with
  | [] => Normal current
  | prop :: rest => next ← optional_member current prop; reduce_path next rest
  end.

(** [getValueByPath(obj, path)]. *)
Definition getValueByPath (obj : JsVal) (path : string) : Completion JsVal :=
  reduce_path obj (split_on "." path).


(** The body check of the [end] handler: the inner [try] parses and
    resolves, its [catch] records the parse failure. *)
Definition check_body (expectedResponse : ExpectedResponse) (data : string)
  : bool * ResponseCheckDetails :=
  try_catch
    (jsonData ← JSON_parse data;
     actual ← getValueByPath jsonData (path expectedResponse);
     let ok := strict_eq actual (value expectedResponse) in
     Normal (ok, {| rcd_path := path expectedResponse;
                    rcd_expected := value expectedResponse;
                    rcd_actual := actual;
                    rcd_match := ok;
                    rcd_parseError := false |}))
    (fun _ => (false, {| rcd_path := path expectedResponse;
                         rcd_expected := value expectedResponse;
                         rcd_actual := JNull;
                         rcd_match := false;
                         rcd_parseError := true |})).

(** The [end] handler of the response. *)
Definition on_response_end (code expectedStatus : Z)
    (expectedResponse : option ExpectedResponse) (data : string) : ApiResult :=
  let statusOk := (code =? expectedStatus)%Z in
  let '(responseOk, details) :=
    match expectedResponse with
    | Some er =>
        if statusOk then
          let '(ok, d) := check_body er data in (ok, Some d)
        else (true, None)
    | None => (true, None)
    end in
  {| success := statusOk && responseOk;
     statusCode := Some code;
     statusOk := statusOk;
     responseOk := Some responseOk;
     responseCheckDetails := details;
     error := None |}.

(** [checkApi(target, timeout, expectedStatus, expectedResponse)], by the
    first thing that happens to the request. *)
Definition checkApi (ev : HttpEvent) (expectedStatus : Z)
    (expectedResponse : option ExpectedResponse) : Completion ApiResult :=
  match ev with
  | HttpThrows m => Throw m
  | HttpResponse code data =>
      Normal (on_response_end code expectedStatus expectedResponse data)
  | HttpError m => Normal (api_failure m)
  | HttpRequestTimeout => Normal (api_failure "Timeout")
  | HttpTimerFired => Normal (api_failure "Timeout")
  end.


(** ** The ping probe *)

(** [ping(target, timeout)]: the [catch] turns a rejection into [false]. *)
Definition ping (ev : PingEvent) : bool :=
  match ev with
  | ExecResolved stdout stderr =>
      negb (truthy (JStr stderr)) &&
      (includes stdout "1 packets transmitted, 1 received, 0% packet loss"
       || includes stdout "1 packets received")
  | ExecRejected => false
  end.

(** ** The SSH probe *)

(** [0 !== +String(count)] for a run of digits. *)
Definition nonzero_count (count : string) : bool :=
  match parse_digits count 0%N with
  | Some 0%N => false
  | _ => true
  end.

Definition updatesInfo (output : string) : string :=
  match updates_match output with
  | Some n =>
      if nonzero_count n then
        n ++ " updates" ++
        match security_match output with
        | Some k => " (" ++ k ++ " security)"
        | None => ""
        end
      else ""
  | None => ""
  end.

(** [checkSSH(host, port, username)], by what happens to the session;
    [closedAt] is the clock when the [close] handler runs. *)
Definition checkSSH (ev : SshEvent) (closedAt : Z) : Completion SshResult.t :=
  match ev with
  | SshThrows m => Throw m
  | SshTimerFired =>
      Normal {| SshResult.success := false;
                SshResult.error := Some "SSH timeout";
                SshResult.motd := None;
                SshResult.rebootRequired := false;
                SshResult.updates := None;
                SshResult.lastCheck := None;
                SshResult.timestamp := None |}
  | SshClosed output =>
      let info := updatesInfo output in
      Normal {| SshResult.success := true;
                SshResult.error := None;
                SshResult.motd := Some output;
                SshResult.rebootRequired :=
                  includes output "System restart required";
                SshResult.updates :=
                  if String.eqb info "" then None else Some info;
                SshResult.lastCheck := Some (getLocaleTimeString closedAt);
                SshResult.timestamp := None |}
  end.

(** ** The SSH result cache *)

(** [port || username && 22]. *)
Definition sshPort (port : option Z) (username : option string) : JsVal :=
  js_or (of_num port) (js_and (of_str username) (JNum 22)).

(** The cache key, a template literal of host, port and user. *)
Definition cacheKey (host : string) (port : JsVal) (user : option string)
  : string :=
  host ++ ":" ++ template port ++ ":" ++ template (of_str user).

(** [interval || 3600000]. *)
Definition checkInterval (interval : option Z) : Z :=
  match interval with
  | Some n => if (n =? 0)%Z then 3600000 else n
  | None => 3600000
  end.

(** The entry under [key] when there is one and it is still valid:
    [Date.now() - timestamp < checkInterval]. *)
Definition valid_entry (m : Monitor) (key : string) (now interval : Z)
  : option CacheEntry :=
  match sshCache m !! key with
  | Some e => if (now - entry_timestamp e <? interval)%Z then Some e else None
  | None => None
  end.

(** The cache consultation both the ssh and the unified branch inline,
    up to the point where it would [await]. A hit yields the address of
    the cached object, and in the ssh branch ([stamp]) writes the entry's
    timestamp onto that object. A miss invokes [checkSSH]. *)
Definition cache_lookup (stamp : bool) (now : Z) (key : string) (interval : Z)
    (m : Monitor) : option nat * Monitor :=
  match valid_entry m key now interval with
  | Some e =>
      (Some (entry_result e),
       if stamp then
         {| objects := alter (SshResult.set_timestamp (entry_timestamp e))
                         (entry_result e) (objects m);
            sshCache := sshCache m;
            probes := probes m |}
       else m)
  | None =>
      (None,
       {| objects := objects m; sshCache := sshCache m;
          probes := key :: probes m |})
  end.

(** What follows the [await]: the object [checkSSH] resolved with gets
    an address and [this.sshCache[cacheKey]] is overwritten with it and
    the clock reading taken now. *)
Definition cache_store (now : Z) (key : string) (r : SshResult.t)
    (m : Monitor) : nat * Monitor :=
  let addr := fresh (dom (objects m)) in
  (addr,
   {| objects := <[addr := r]> (objects m);
      sshCache := <[key := {| entry_result := addr;
                              entry_timestamp := now |}]> (sshCache m);
      probes := probes m |}).

(** The two halves in sequence, nothing else running in between. *)
Definition cachedSSH (stamp : bool) (w : World) (key : string) (interval : Z)
    (m : Monitor) : Completion nat * Monitor :=
  match cache_lookup stamp (now_lookup w) key interval m with
  | (Some addr, m1) => (Normal addr, m1)
  | (None, m1) =>
      match checkSSH (ssh_event w) (now_closed w) with
      | Throw msg => (Throw msg, m1)
      | Normal r =>
          let '(addr, m2) := cache_store (now_stored w) key r m1 in
          (Normal addr, m2)
      end
  end.

(** ** Status fusion *)

Definition is_null (o : option bool) : bool :=
  match o with None => true | Some _ => false end.

Definition is_false (o : option bool) : bool :=
  match o with Some false => true | _ => false end.

(** An HTTP code that may be [null], as a value. *)
Definition of_code (o : option Z) : JsVal := from_option JNum JNull o.

(** [`HTTP ${statusCode || 'N/A'}`]. *)
Definition http_or_NA (code : option Z) : string :=
  "HTTP " ++ template (js_or (of_code code) (JStr "N/A")).

(** [`HTTP ${statusCode} (expected ${expectedStatus})`]. *)
Definition http_expected (code : option Z) (expected : Z) : string :=
  "HTTP " ++ template (of_code code) ++ " (expected " ++ pretty expected ++ ")".

(** The [if] chain of the api branch: [status] and [statusDetails]. *)
Definition api_rules (r : ApiResult) (expected : Z) : Status * option string :=
  if negb (statusOk r) && is_null (responseOk r) then
    (DOWN, Some (http_or_NA (statusCode r)))
  else if negb (statusOk r) then
    (DOWN, Some (http_expected (statusCode r) expected))
  else if is_false (responseOk r) then
    (UNHEALTHY, Some "Health check failed")
  else (UP, None).

(** [status], [statusDetails] and [combinedError] of the unified branch. *)
Definition Verdict : Type := Status * option string * option string.

(** The [if] chain on ping and API. *)
Definition unified_rules (pingOk : bool) (r : ApiResult) (expected : Z)
  : Verdict :=
  if negb pingOk && negb (success r) then
    (DOWN, Some "Ping failed + API unreachable",
     Some "Both ping and API failed")
  else if negb pingOk then
    (DEGRADED, Some "Ping failed but API responding",
     Some "Network issue (ping failed)")
  else if negb (statusOk r) && is_null (responseOk r) then
    (DEGRADED, Some "Ping OK but API unreachable",
     Some (if nonempty (error r) then default "" (error r)
           else http_or_NA (statusCode r)))
  else if negb (statusOk r) then
    (DEGRADED, Some ("Ping OK, " ++ http_expected (statusCode r) expected),
     Some "API returned wrong status")
  else if is_false (responseOk r) then
    (UNHEALTHY, Some "Ping OK, health check failed",
     Some "Health check failed")
  else (UP, None, None).

(** The SSH part that follows: [sshResult] is [null] when no SSH check
    is enabled. *)
Definition ssh_overlay (sshResult : option SshResult.t) (v : Verdict)
  : Verdict :=
  let '(status, statusDetails, combinedError) := v in
  match sshResult with
  | Some s =>
      if negb (SshResult.success s) then
        if decide (status = UP) then
          (DEGRADED, Some "SSH check failed", SshResult.error s)
        else v
      else if SshResult.rebootRequired s || nonempty (SshResult.updates s) then
        if decide (status = UP) then
          (MAINTENANCE, Some "Updates/reboot pending", combinedError)
        else v
      else v
  | None => v
  end.

(** ** The result objects of [checkServer] *)

(** [server.lastCheck || this.getLocaleTimeString()] and its like. *)
Definition or_now (o : option string) (now : Z) : string :=
  if nonempty o then default "" o else getLocaleTimeString now.

Definition ping_result (server : Server.t) (w : World) : Result.t :=
  let isAlive := ping (ping_event w) in
  {| Result.name := Server.name server;
     Result.type := Server.type server;
     Result.target := Server.target server;
     Result.status := if isAlive then UP else DOWN;
     Result.statusCode := Mark (if isAlive then "✓" else "✗");
     Result.lastCheck := getLocaleTimeString (now_result w);
     Result.error := None;
     Result.details := NoDetails;
     Result.sshInfo := None;
     Result.groupName := None |}.

(** The ssh branch once [sshResult] is the object at [addr]. *)
Definition ssh_result (server : Server.t) (w : World) (addr : nat)
    (m : Monitor) : Result.t :=
  let sshResult := objects m !!! addr in
  let port := sshPort (Server.port server) (Server.username server) in
  let user := Server.username server in
  let failed := negb (SshResult.success sshResult) in
  let pending := SshResult.rebootRequired sshResult
                 || nonempty (SshResult.updates sshResult) in
  {| Result.name := Server.name server;
     Result.type := Server.type server;
     Result.target :=
       (if nonempty user then default "" user ++ "@" else "")
       ++ Server.host server
       ++ (if truthy port then ":" ++ template port else "");
     Result.status :=
       if failed then DOWN else if pending then MAINTENANCE else UP;
     Result.statusCode :=
       Mark (if failed then "✗" else if pending then "⚠" else "✓");
     Result.lastCheck :=
       or_now (SshResult.lastCheck sshResult) (now_result w);
     Result.error := if failed then SshResult.error sshResult else None;
     Result.details := SshDetails (SshResult.rebootRequired sshResult)
                         (SshResult.updates sshResult);
     Result.sshInfo := Some addr;
     Result.groupName := None |}.

(** [apiResult.statusCode || 'N/A']. *)
Definition code_label (code : option Z) : Label :=
  match code with
  | Some n => if (n =? 0)%Z then Mark "N/A" else Code n
  | None => Mark "N/A"
  end.

Definition api_result (server : Server.t) (w : World) (apiResult : ApiResult)
  : Result.t :=
  let '(status, statusDetails) :=
    api_rules apiResult (Server.expectedStatus server) in
  {| Result.name := Server.name server;
     Result.type := Server.type server;
     Result.target := Server.target server;
     Result.status := if success apiResult then UP else status;
     Result.statusCode := code_label (statusCode apiResult);
     Result.lastCheck := or_now (Server.lastCheck server) (now_result w);
     Result.error := error apiResult;
     Result.details := ApiDetails (statusOk apiResult) (responseOk apiResult)
                         (responseCheckDetails apiResult) statusDetails;
     Result.sshInfo := None;
     Result.groupName := None |}.

(** The unified branch once ping and API are in and [sshResult] is
    [null] or the object at the given address. *)
Definition all_result (server : Server.t) (w : World) (pingOk : bool)
    (apiResult : ApiResult) (ssh : option nat) (m : Monitor) : Result.t :=
  let sshResult := (fun addr => objects m !!! addr) <$> ssh in
  let '(status, statusDetails, combinedError) :=
    ssh_overlay sshResult
      (unified_rules pingOk apiResult (Server.expectedStatus server)) in
  {| Result.name := Server.name server;
     Result.type := Server.type server;
     Result.target := Server.target server ++ " / " ++ Server.apiTarget server;
     Result.status := status;
     Result.statusCode := Mark (if pingOk then "✓" else "✗");
     Result.lastCheck := or_now (Server.lastCheck server) (now_result w);
     Result.error := combinedError;
     Result.details :=
       AllDetails pingOk (statusOk apiResult) (responseOk apiResult)
         (responseCheckDetails apiResult) statusDetails
         (SshResult.rebootRequired <$> sshResult)
         (sshResult ≫= SshResult.updates);
     Result.sshInfo := ssh;
     Result.groupName := None |}.

(** The object the [catch] builds. *)
Definition error_result (server : Server.t) (w : World) (message : string)
  : Result.t :=
  {| Result.name := Server.name server;
     Result.type := Server.type server;
     Result.target := Server.target server;
     Result.status := ERROR;
     Result.statusCode := Mark "N/A";
     Result.lastCheck := getLocaleTimeString (now_result w);
     Result.error := Some message;
     Result.details := NoDetails;
     Result.sshInfo := None;
     Result.groupName := None |}.

(** What comes after the [try]: a thrown error becomes the ERROR result,
    then [if (server.groupName) result.groupName = server.groupName],
    which itself throws when [result] is still [undefined]. *)
Definition conclude (server : Server.t) (w : World)
    (body : Completion (option Result.t)) : Completion (option Result.t) :=
  let result := try_catch body (fun msg => Some (error_result server w msg)) in
  if nonempty (Server.groupName server) then
    match result with
    | Some r =>
        Normal (Some (Result.set_groupName
                        (default "" (Server.groupName server)) r))
    | None => Throw "Cannot set properties of undefined"
    end
  else Normal result.

(** ** [checkServer] *)

(** Cache key and interval of an ssh target. *)
Definition ssh_key (server : Server.t) : string :=
  cacheKey (Server.host server)
    (sshPort (Server.port server) (Server.username server))
    (Server.username server).

(** [server.ssh] when [server.ssh?.enabled]. *)
Definition enabled_ssh (server : Server.t) : option SshConfig.t :=
  match Server.ssh server with
  | Some c => if SshConfig.enabled c then Some c else None
  | None => None
  end.

(** Cache key of the SSH part of a unified target; the host is
    [server.ssh.host || server.target]. *)
Definition all_key (server : Server.t) (c : SshConfig.t) : string :=
  cacheKey
    (template (js_or (of_str (SshConfig.host c)) (JStr (Server.target server))))
    (sshPort (SshConfig.port c) (SshConfig.username c))
    (SshConfig.username c).

(** The body of the [try], one evaluation running on its own. For a
    type none of the branches names, [result] stays [undefined]. *)
Definition evaluate (w : World) (server : Server.t) (m : Monitor)
  : Completion (option Result.t) * Monitor :=
  match Server.type server with
  | TPing => (Normal (Some (ping_result server w)), m)
  | TSsh =>
      match cachedSSH true w (ssh_key server)
              (checkInterval (Server.sshCheckInterval server)) m with
      | (Normal addr, m1) => (Normal (Some (ssh_result server w addr m1)), m1)
      | (Throw msg, m1) => (Throw msg, m1)
      end
  | TApi =>
      (apiResult ← checkApi (http_event w) (Server.expectedStatus server)
                     (Server.expectedResponse server);
       Normal (Some (api_result server w apiResult)), m)
  | TAll =>
      let pingOk := ping (ping_event w) in
      match checkApi (http_event w) (Server.expectedStatus server)
              (Server.expectedResponse server) with
      | Throw msg => (Throw msg, m)
      | Normal apiResult =>
          match enabled_ssh server with
          | Some c =>
              match cachedSSH false w (all_key server c)
                      (checkInterval (SshConfig.checkInterval c)) m with
              | (Normal addr, m1) =>
                  (Normal (Some (all_result server w pingOk apiResult
                                   (Some addr) m1)), m1)
              | (Throw msg, m1) => (Throw msg, m1)
              end
          | None =>
              (Normal (Some (all_result server w pingOk apiResult None m)), m)
          end
      end
  | TOther _ => (Normal None, m)
  end.

(** [checkServer(server)]. *)
Definition checkServer (w : World) (server : Server.t) (m : Monitor)
  : Completion (option Result.t) * Monitor :=
  let '(body, m1) := evaluate w server m in
  (conclude server w body, m1).

(** ** One cycle: [checkAllServers]

    [checkServer] is an [async] function: a call runs up to its first
    [await] that has to wait and is resumed when the awaited probe has
    resolved. Between the two, other evaluations run; the monitor's
    state is read and written only in these uninterrupted stretches. *)

(** The promise of one [checkServer] call: settled, awaiting the ping
    and HTTP probes, or awaiting [checkSSH] with what is left to do once
    its object has an address. *)
Inductive Task : Type :=
  | Settled (outcome : Completion (option Result.t))
  | AwaitProbes (w : World) (server : Server.t)
  | AwaitSSH (w : World) (server : Server.t) (key : string)
      (build : nat -> Monitor -> Result.t).

(** The call itself, up to the first [await] that waits. Only an ssh
    target consults the cache before any probe. *)
Definition start (w : World) (server : Server.t) (m : Monitor)
  : Task * Monitor :=
  match Server.type server with
  | TPing | TApi | TAll => (AwaitProbes w server, m)
  | TSsh =>
      let key := ssh_key server in
      match cache_lookup true (now_lookup w) key
              (checkInterval (Server.sshCheckInterval server)) m with
      | (Some addr, m1) =>
          (Settled (conclude server w
                      (Normal (Some (ssh_result server w addr m1)))), m1)
      | (None, m1) => (AwaitSSH w server key (ssh_result server w), m1)
      end
  | TOther _ => (Settled (conclude server w (Normal None)), m)
  end.

(** The stretch that runs when the awaited probe has resolved. *)
Definition resume (t : Task) (m : Monitor) : Task * Monitor :=
  match t with
  | Settled _ => (t, m)
  | AwaitProbes w server =>
      match Server.type server with
      | TPing =>
          (Settled (conclude server w (Normal (Some (ping_result server w)))),
           m)
      | TApi =>
          (Settled (conclude server w
             (apiResult ← checkApi (http_event w)
                            (Server.expectedStatus server)
                            (Server.expectedResponse server);
              Normal (Some (api_result server w apiResult)))), m)
      | TAll =>
          let pingOk := ping (ping_event w) in
          match checkApi (http_event w) (Server.expectedStatus server)
                  (Server.expectedResponse server) with
          | Throw msg => (Settled (conclude server w (Throw msg)), m)
          | Normal apiResult =>
              match enabled_ssh server with
              | Some c =>
                  let key := all_key server c in
                  match cache_lookup false (now_lookup w) key
                          (checkInterval (SshConfig.checkInterval c)) m with
                  | (Some addr, m1) =>
                      (Settled (conclude server w
                         (Normal (Some (all_result server w pingOk apiResult
                                          (Some addr) m1)))), m1)
                  | (None, m1) =>
                      (AwaitSSH w server key
                         (fun addr => all_result server w pingOk apiResult
                                        (Some addr)), m1)
                  end
              | None =>
                  (Settled (conclude server w
                     (Normal (Some (all_result server w pingOk apiResult
                                      None m)))), m)
              end
          end
      | TSsh | TOther _ => (t, m)
      end
  | AwaitSSH w server key build =>
      match checkSSH (ssh_event w) (now_closed w) with
      | Throw msg => (Settled (conclude server w (Throw msg)), m)
      | Normal r =>
          let '(addr, m1) := cache_store (now_stored w) key r m in
          (Settled (conclude server w (Normal (Some (build addr m1)))), m1)
      end
  end.

(** The servers [checkServer] is called on, in call order: a group's
    children have [groupName] set to the group's name first. *)
Definition calls (servers : list Entry) : list Server.t :=
  servers ≫= (fun e =>
    match e with
    | Leaf server => [server]
    | Group name children => Server.set_groupName name <$> children
    end).

(** A cycle under way: the promises in [checkPromises] order, the
    monitor, and the reason of the first rejection, if any. *)
Record Cycle : Type := {
  promises : list Task;
  monitor : Monitor;
  rejected : option string
}.

Definition rejection (t : Task) : option string :=
  match t with
  | Settled (Throw msg) => Some msg
  | _ => None
  end.

(** A promise settling with a rejection rejects [Promise.all], unless
    an earlier one already has. *)
Definition note (before after : Task) (r : option string) : option string :=
  match r, before with
  | Some _, _ => r
  | None, Settled _ => None
  | None, _ => rejection after
  end.

(** The [for] loops: every call is started in turn. [worlds] gives each
    call, by position, what the outside world does during it. *)
Fixpoint start_all (worlds : nat -> World) (i : nat) (servers : list Server.t)
    (c : Cycle) : Cycle :=
  match servers with
  | [] => c
  | server :: rest =>
      let '(t, m) := start (worlds i) server (monitor c) in
      start_all worlds (S i) rest
        {| promises := promises c ++ [t];
           monitor := m;
           rejected := note (AwaitProbes (worlds i) server) t (rejected c) |}
  end.

(** The awaited probe of promise [i] resolves. *)
Definition step (c : Cycle) (i : nat) : Cycle :=
  match promises c !! i with
  | Some t =>
      let '(t', m) := resume t (monitor c) in
      {| promises := <[i := t']> (promises c);
         monitor := m;
         rejected := note t t' (rejected c) |}
  | None => c
  end.

(** The value of a fulfilled promise. *)
Definition fulfilled (t : Task) : option (option Result.t) :=
  match t with
  | Settled (Normal r) => Some r
  | _ => None
  end.

(** [await Promise.all(checkPromises)]: rejected as soon as one promise
    is, fulfilled with the values by position once every promise is,
    pending ([None]) until then. *)
Definition promise_all (c : Cycle)
  : option (Completion (list (option Result.t))) :=
  match rejected c with
  | Some msg => Some (Throw msg)
  | None => Normal <$> mapM fulfilled (promises c)
  end.

(** The cycle after every call has been started and the awaited probes
    have resolved in the order of [schedule]. *)
Definition run_cycle (worlds : nat -> World) (schedule : list nat)
    (servers : list Entry) (m : Monitor) : Cycle :=
  foldl step
    (start_all worlds 0 (calls servers)
       {| promises := []; monitor := m; rejected := None |})
    schedule.

(** [checkAllServers(servers)] under a [schedule], the order in which
    awaited probes resolve: what [this.results] is assigned, if the
    [await] gets that far, and the monitor. *)
Definition checkAllServers (worlds : nat -> World) (schedule : list nat)
    (servers : list Entry) (m : Monitor)
  : option (Completion (list (option Result.t))) * Monitor :=
  let c := run_cycle worlds schedule servers m in
  (promise_all c, monitor c).


(** ** Vocabulary of the statements *)

(** [details.statusDetails], where the branch records one. *)
Definition statusDetails (d : Details) : option string :=
  match d with
  | ApiDetails _ _ _ sd => sd
  | AllDetails _ _ _ _ sd _ _ => sd
  | _ => None
  end.





(** [result] after [if (server.groupName) result.groupName = ...]. *)
Definition with_label (server : Server.t) (r : Result.t) : Result.t :=
  if nonempty (Server.groupName server)
  then Result.set_groupName (default "" (Server.groupName server)) r
  else r.







(** How many more times a promise has to be resumed, at most. *)
Definition remaining (t : Task) : nat :=
  match t with
  | Settled _ => 0
  | AwaitSSH _ _ _ _ => 1
  | AwaitProbes _ _ => 2
  end.

(** ** Rendering: [calculateColumnWidths], [formatDetails], [displayTable] *)

(** The six fixed widths for a terminal width. *)
Definition fixed_widths (terminalWidth : Z) : list Z :=
  if (terminalWidth <? 100)%Z then [14; 7; 25; 10; 6; 12]
  else if (terminalWidth <? 140)%Z then [18; 8; 35; 17; 8; 12]
  else if (terminalWidth <? 180)%Z then [22; 8; 45; 17; 8; 12]
  else [25; 8; 55; 17; 8; 12].

(** [process.stdout.columns || 120]. *)
Definition terminal_width (columns : option Z) : Z :=
  match columns with
  | Some c => if (c =? 0)%Z then 120 else c
  | None => 120
  end.

(** [calculateColumnWidths()]: the rest of the width, less 9, goes to
    the last column. *)
Definition calculateColumnWidths (columns : option Z) : list Z :=
  let terminalWidth := terminal_width columns in
  let widths := fixed_widths terminalWidth in
  (widths ++ [terminalWidth - foldl Z.add 9 widths])%list.

(** [items.join(sep)]. *)
Fixpoint join (sep : string) (items : list string) : string :=
  match items with
  | [] => ""
  | [x] => x
  | x :: rest => x ++ sep ++ join sep rest
  end.

(** A value inside a template literal, arrays included: the elements
    joined by commas, [null] and [undefined] elements left empty. *)
Fixpoint to_String (v : JsVal) : string :=
  match v with
  | JArr items =>
      join ","
        (map (fun x => match x with
                       | JUndefined | JNull => ""
                       | _ => to_String x
                       end) items)
  | _ => template v
  end.

(** A double quote. *)
Definition dquote : string := String (ascii_of_nat 34) EmptyString.

(** [result.statusCode] inside a template literal. *)
Definition label_text (l : Label) : string :=
  match l with
  | Mark s => s
  | Code n => pretty n
  end.

(** [result.error || '-']. *)
Definition error_or_dash (error : option string) : string :=
  if nonempty error then default "" error else "-".

(** [`${path}: "${actual}" (expected "${expected}")`]. *)
Definition mismatch_text (d : ResponseCheckDetails) : string :=
  rcd_path d ++ ": " ++ dquote ++ to_String (rcd_actual d) ++ dquote
  ++ " (expected " ++ dquote ++ to_String (rcd_expected d) ++ dquote ++ ")".

(** The pushes of the last part of [formatDetails], in order. The
    destructuring reads [statusOk] and the rest off [details]; a
    property the object lacks is [undefined]. *)
Definition detail_items (r : Result.t) : list string :=
  let d := Result.details r in
  let statusOk :=
    match d with ApiDetails sOk _ _ _ => sOk | _ => false end in
  let responseOk :=
    match d with
    | ApiDetails _ rOk _ _ | AllDetails _ _ rOk _ _ _ _ => rOk
    | _ => None
    end in
  let checkDetails :=
    match d with
    | ApiDetails _ _ rcd _ | AllDetails _ _ _ rcd _ _ _ => rcd
    | _ => None
    end in
  let sshRebootRequired :=
    match d with AllDetails _ _ _ _ _ (Some b) _ => b | _ => false end in
  let sshUpdates :=
    match d with AllDetails _ _ _ _ _ _ u => u | _ => None end in
  ((if statusOk then []
    else [if nonempty (statusDetails d) then default "" (statusDetails d)
          else ("HTTP " ++ label_text (Result.statusCode r))%string])
   ++ (match checkDetails with
       | Some rcd => if is_false responseOk then [mismatch_text rcd] else []
       | None => []
       end)
   ++ (if sshRebootRequired then ["⚠ Reboot required"] else [])
   ++ (if nonempty sshUpdates then [default "" sshUpdates] else [])
   ++ (if nonempty (Result.error r) then [default "" (Result.error r)]
       else []))%list.

(** The pushes for an ssh result; [result.sshInfo] is read through the
    address it holds. *)
Definition ssh_items (r : Result.t) (m : Monitor) : list string :=
  if nonempty (Result.error r) then [default "" (Result.error r)]
  else
    let info := (fun addr => objects m !!! addr) <$> Result.sshInfo r in
    ((if default false (SshResult.rebootRequired <$> info)
      then ["⚠ Reboot required"] else [])
     ++ (if nonempty (info ≫= SshResult.updates)
         then [default "" (info ≫= SshResult.updates)] else []))%list.

(** [formatDetails(result)]. *)
Definition formatDetails (r : Result.t) (m : Monitor) : string :=
  match Result.details r with
  | NoDetails => error_or_dash (Result.error r)
  | _ =>
      match Result.type r with
      | TPing => error_or_dash (Result.error r)
      | TSsh =>
          match ssh_items r m with
          | [] => "OK"
          | items => join " | " items
          end
      | _ =>
          match detail_items r with
          | [] => "-"
          | items => join " | " items
          end
      end
  end.

(** The rows [displayTable] pushes. *)
Inductive Row : Type :=
  | Spacer
  | GroupHeader (groupName : string)
  | ServerRow (r : Result.t).

(** The [forEach] over [this.results], [lastGroupName] threaded. *)
Fixpoint table_rows (lastGroupName : option string) (results : list Result.t)
  : list Row :=
  match results with
  | [] => []
  | r :: rest =>
      let g := Result.groupName r in
      if nonempty g && negb (bool_decide (lastGroupName = g)) then
        Spacer :: GroupHeader (default "" g) :: ServerRow r
        :: table_rows g rest
      else if nonempty lastGroupName && negb (nonempty g) then
        Spacer :: ServerRow r :: table_rows None rest
      else ServerRow r :: table_rows lastGroupName rest
  end.

(** [['UP', 'MAINTENANCE'].includes(r.status)]. *)
Definition counts_up (s : Status) : bool :=
  match s with
  | UP | MAINTENANCE => true
  | _ => false
  end.

(** [upCount] of the header. *)
Definition upCount (results : list Result.t) : nat :=
  length (filter (fun r => counts_up (Result.status r) = true) results).

(** The result shown by a row, if it is a server's row. *)
Definition row_result (row : Row) : option Result.t :=
  match row with
  | ServerRow r => Some r
  | _ => None
  end.

(** Every cache entry refers to an object that exists. *)
Definition cache_wf (m : Monitor) : Prop :=
  forall key e, sshCache m !! key = Some e ->
    is_Some (objects m !! entry_result e).


(** Two outcome objects that differ at most in [timestamp]. *)
Definition same_outcome (o o' : SshResult.t) : Prop :=
  SshResult.success o' = SshResult.success o /\
  SshResult.error o' = SshResult.error o /\
  SshResult.motd o' = SshResult.motd o /\
  SshResult.rebootRequired o' = SshResult.rebootRequired o /\
  SshResult.updates o' = SshResult.updates o /\
  SshResult.lastCheck o' = SshResult.lastCheck o.

(** Every object of [m] is still there in [m'], with the same outcome. *)
Definition keeps_objects (m m' : Monitor) : Prop :=
  forall addr o, objects m !! addr = Some o ->
    exists o', objects m' !! addr = Some o' /\ same_outcome o o'.

(** * Properties *)

(** ** Dot-path resolution *)







(** ** The ping wait parameter *)

(** C10. The wait parameter is [floor(timeout / 1000)] on Linux and the
    timeout itself elsewhere, and it is what the command line carries;
    so on Linux a timeout below one second gives a wait of 0. *)
Theorem ping_wait_platform (target : string) (timeout : Z) :
  0 <= timeout ->
  ping_wait true timeout = timeout / 1000 /\
  ping_wait false timeout = timeout /\
  (forall isLinux, ping_command isLinux target timeout =
     "ping -c 1 -W " ++ pretty (ping_wait isLinux timeout) ++ " " ++ target) /\
  (timeout < 1000 -> ping_wait true timeout = 0).
Proof.
  intros Hpos. unfold ping_wait; simpl. repeat split.
  - apply Z.div_1_r.
  - intros Hlt. apply Z.div_small. lia.
Qed.

(** ** The API probe *)

Lemma check_body_details (er : ExpectedResponse) (data : string) :
  rcd_match (check_body er data).2 = (check_body er data).1.
Proof.
  unfold check_body.
  destruct (JSON_parse data) as [json|msg]; simpl; [|done].
  destruct (getValueByPath json (path er)) as [actual|msg]; simpl; done.
Qed.

(** The body assertion is evaluated, leaving [responseCheckDetails],
    exactly when one is configured and the status matched. *)
Lemma assertion_evaluated (code expected : Z) (er : option ExpectedResponse)
    (data : string) :
  is_Some (responseCheckDetails (on_response_end code expected er data)) <->
  is_Some er /\ code = expected.
Proof.
  unfold on_response_end. destruct er as [e|]; simpl.
  - destruct (Z.eqb_spec code expected) as [->|Hne]; simpl.
    + destruct (check_body e data); simpl. split; eauto.
    + split; [intros [? [=]] | intros [_ ?]; done].
  - split; [intros [? [=]] | intros [[? [=]] _]].
Qed.

(** C2, as the code has it. When a response arrives and no assertion is
    configured or the status does not match, [responseOk] is [true] and
    nothing is evaluated; the assertion is evaluated only when one is
    configured and the status matched. [responseOk] is [null] exactly
    when no response was received. *)
Theorem responseOk_without_assertion (ev : HttpEvent) (expected : Z)
    (er : option ExpectedResponse) (r : ApiResult) :
  checkApi ev expected er = Normal r ->
  (forall code data, ev = HttpResponse code data ->
     (er = None \/ code <> expected ->
        responseOk r = Some true /\ responseCheckDetails r = None) /\
     (is_Some (responseCheckDetails r) <-> is_Some er /\ code = expected)) /\
  (responseOk r = None <-> forall code data, ev <> HttpResponse code data).
Proof.
  intros Hr. split.
  - intros code data ->. simpl in Hr. injection Hr as <-. split.
    + unfold on_response_end. intros [-> | Hne]; [done|].
      apply Z.eqb_neq in Hne. rewrite Hne. by destruct er.
    + apply assertion_evaluated.
  - destruct ev; simpl in Hr; try injection Hr as <-; try done; simpl.
    split; [|intros H; by destruct (H code data)].
    unfold on_response_end.
    destruct er as [e|]; simpl; [|done].
    destruct (code =? expected)%Z; [|done]. by destruct (check_body e data).
Qed.

(** ** Fusion of an API outcome *)

Lemma checkApi_outcome (ev : HttpEvent) (expected : Z)
    (er : option ExpectedResponse) (r : ApiResult) :
  checkApi ev expected er = Normal r ->
  success r = statusOk r && bool_decide (responseOk r = Some true) /\
  match error r with
  | Some _ => statusOk r = false /\ responseOk r = None /\ statusCode r = None
  | None => exists code ok, statusCode r = Some code /\ responseOk r = Some ok
  end.
Proof.
  destruct ev; simpl; intros [= <-]; simpl; try done.
  unfold on_response_end.
  destruct er as [e|]; destruct (code =? expected)%Z; simpl;
    try destruct (check_body e data) as [[] d]; simpl; split; eauto.
Qed.


(** ** Fusion of a unified target *)

Lemma unified_rules_status (pingOk : bool) (api : ApiResult) (expected : Z) :
  (unified_rules pingOk api expected).1.1 ∈ [UP; DOWN; DEGRADED; UNHEALTHY].
Proof.
  clear -pingOk api expected. unfold unified_rules.
  repeat (match goal with |- context [if ?b then _ else _] => destruct b end);
    simpl; apply list_elem_of_In; simpl; tauto.
Qed.

Lemma ssh_overlay_not_up (s : option SshResult.t) (v : Verdict) :
  v.1.1 <> UP -> ssh_overlay s v = v.
Proof.
  destruct v as [[status sd] ce]. simpl. intros Hne.
  destruct s as [o|]; [|done]. unfold ssh_overlay.
  repeat case_match; done.
Qed.

(** C1. The ping and API rules give UP, DOWN, DEGRADED or UNHEALTHY.
    When they give anything but UP, the result has that status, with the
    detail and error of the rules, whatever the SSH outcome. When they
    give UP, an SSH outcome that is not a success makes it DEGRADED,
    otherwise a pending reboot or a summary of updates makes it
    MAINTENANCE, and otherwise it stays UP. *)
Theorem ssh_overlay_only_from_up (server : Server.t) (w : World)
    (pingOk : bool) (api : ApiResult) (ssh : option nat) (m : Monitor) :
  let rules := unified_rules pingOk api (Server.expectedStatus server) in
  let r := all_result server w pingOk api ssh m in
  rules.1.1 ∈ [UP; DOWN; DEGRADED; UNHEALTHY] /\
  (rules.1.1 <> UP ->
     Result.status r = rules.1.1 /\
     statusDetails (Result.details r) = rules.1.2 /\
     Result.error r = rules.2) /\
  (rules.1.1 = UP ->
     Result.status r =
       match ssh with
       | None => UP
       | Some addr =>
           let s := objects m !!! addr in
           if negb (SshResult.success s) then DEGRADED
           else if SshResult.rebootRequired s || nonempty (SshResult.updates s)
                then MAINTENANCE
                else UP
       end).
Proof.
  intros rules r. split; [apply unified_rules_status|]. split.
  - intros Hne. subst r. unfold all_result. fold rules.
    rewrite (ssh_overlay_not_up _ _ Hne).
    destruct rules as [[status sd] ce]. done.
  - intros Hup. subst r. unfold all_result. fold rules.
    destruct rules as [[status sd] ce]. simpl in Hup. subst status.
    destruct ssh as [addr|]; simpl; [|done].
    repeat case_match; simplify_eq; done.
Qed.

(** C6, as the code has it. When the ping fails and the API check
    succeeds, the result is DEGRADED with the detail
    [Ping failed but API responding] and the error
    [Network issue (ping failed)], whatever the SSH outcome. *)
Theorem ping_failed_api_responding (server : Server.t) (w : World)
    (api : ApiResult) (ssh : option nat) (m : Monitor) :
  success api = true ->
  let r := all_result server w false api ssh m in
  Result.status r = DEGRADED /\
  statusDetails (Result.details r) = Some "Ping failed but API responding" /\
  Result.error r = Some "Network issue (ping failed)".
Proof.
  intros Hs r. subst r. unfold all_result, unified_rules. rewrite Hs. simpl.
  destruct ssh as [addr|]; simpl; [|done].
  repeat case_match; simplify_eq; done.
Qed.

(** ** The per-target boundary *)


Lemma with_label_fields (server : Server.t) (r : Result.t) :
  Result.status (with_label server r) = Result.status r /\
  Result.error (with_label server r) = Result.error r /\
  Result.lastCheck (with_label server r) = Result.lastCheck r /\
  Result.details (with_label server r) = Result.details r /\
  Result.sshInfo (with_label server r) = Result.sshInfo r.
Proof. unfold with_label. by case_match. Qed.

Lemma conclude_some (server : Server.t) (w : World) (r : Result.t) :
  conclude server w (Normal (Some r)) = Normal (Some (with_label server r)).
Proof. unfold conclude, with_label. simpl. by case_match. Qed.






(** ** Promises of a cycle *)






















(** ** The SSH result cache *)

Lemma valid_entry_hit (m : Monitor) (key : string) (now interval : Z)
    (e : CacheEntry) :
  sshCache m !! key = Some e ->
  now - entry_timestamp e < interval ->
  valid_entry m key now interval = Some e.
Proof.
  intros He Hlt. unfold valid_entry. rewrite He.
  by rewrite (proj2 (Z.ltb_lt _ _) Hlt).
Qed.

Lemma valid_entry_stale (m : Monitor) (key : string) (now interval : Z)
    (e : CacheEntry) :
  sshCache m !! key = Some e ->
  interval <= now - entry_timestamp e ->
  valid_entry m key now interval = None.
Proof.
  intros He Hge. unfold valid_entry. rewrite He.
  by rewrite (proj2 (Z.ltb_ge _ _) Hge).
Qed.

(** A lookup that returns an address leaves an entry with that address
    under the key, and has invoked the probe at most once. *)
Lemma cachedSSH_entry (stamp : bool) (w : World) (key : string)
    (interval : Z) (m m1 : Monitor) (addr : nat) :
  cachedSSH stamp w key interval m = (Normal addr, m1) ->
  exists e, sshCache m1 !! key = Some e /\ entry_result e = addr /\
    (length (probes m1) <= S (length (probes m)))%nat.
Proof.
  unfold cachedSSH, cache_lookup, valid_entry.
  destruct (sshCache m !! key) as [e|] eqn:He.
  - destruct (now_lookup w - entry_timestamp e <? interval)%Z.
    + intros [= <- <-]. exists e. destruct stamp; simpl; eauto.
    + destruct (checkSSH _ _) as [r|msg]; [|done]. simpl.
      intros [= <- <-]. simpl. rewrite lookup_insert_eq. eexists.
      split; [done|]. split; [done|lia].
  - destruct (checkSSH _ _) as [r|msg]; [|done]. simpl.
    intros [= <- <-]. simpl. rewrite lookup_insert_eq. eexists.
    split; [done|]. split; [done|lia].
Qed.

(** C4. After a lookup that returned an outcome, the key has an entry.
    A second lookup less than the interval after that entry's fetch
    time returns the same outcome object without invoking the probe, so
    the two lookups together invoke it at most once, and leaves the
    cache as it is. A second lookup at or after the interval invokes the
    probe again, and when the probe resolves, the entry under the key is
    the new outcome object with the new fetch time. *)
Theorem ssh_cache_ttl (stamp1 stamp2 : bool) (w1 w2 : World) (key : string)
    (interval : Z) (m m1 : Monitor) (a1 : nat) :
  cachedSSH stamp1 w1 key interval m = (Normal a1, m1) ->
  exists e, sshCache m1 !! key = Some e /\ entry_result e = a1 /\
    (length (probes m1) <= S (length (probes m)))%nat /\
    (now_lookup w2 - entry_timestamp e < interval ->
       exists m2, cachedSSH stamp2 w2 key interval m1 = (Normal a1, m2) /\
         probes m2 = probes m1 /\ sshCache m2 = sshCache m1) /\
    (interval <= now_lookup w2 - entry_timestamp e ->
       probes (cachedSSH stamp2 w2 key interval m1).2 = key :: probes m1 /\
       forall r, checkSSH (ssh_event w2) (now_closed w2) = Normal r ->
         exists a2 m2,
           cachedSSH stamp2 w2 key interval m1 = (Normal a2, m2) /\
           sshCache m2 !! key
           = Some {| entry_result := a2; entry_timestamp := now_stored w2 |} /\
           objects m2 !! a2 = Some r /\
           objects m1 !! a2 = None).
Proof.
  intros H1. destruct (cachedSSH_entry _ _ _ _ _ _ _ H1) as (e & He & Ha & Hp).
  exists e. split; [done|]. split; [done|]. split; [done|]. split.
  - intros Hlt. unfold cachedSSH, cache_lookup.
    rewrite (valid_entry_hit _ _ _ _ _ He Hlt), Ha.
    eexists. split; [done|]. by destruct stamp2.
  - intros Hge. unfold cachedSSH, cache_lookup.
    rewrite (valid_entry_stale _ _ _ _ _ He Hge).
    destruct (checkSSH _ _) as [r|msg]; simpl; split; try done.
    intros ? [= <-]. eexists _, _. split; [done|]. simpl.
    rewrite !lookup_insert_eq. split; [done|]. split; [done|].
    apply not_elem_of_dom, is_fresh.
Qed.

(** C9, as the code has it. An ssh target whose key has a valid entry
    gets its result without a probe. The result refers to the cached
    outcome object itself, which now bears the entry's fetch time as
    [timestamp] and is otherwise unchanged, as is every other object.
    Its [lastCheck] is the capture time the object records, if it
    records one; an object that records none (the probe timed out) gives
    the time at which the result is built. *)
Theorem ssh_cache_hit_lastCheck (w : World) (server : Server.t) (m : Monitor)
    (e : CacheEntry) (o : SshResult.t) :
  Server.type server = TSsh ->
  sshCache m !! ssh_key server = Some e ->
  now_lookup w - entry_timestamp e
    < checkInterval (Server.sshCheckInterval server) ->
  objects m !! entry_result e = Some o ->
  exists r m',
    checkServer w server m = (Normal (Some r), m') /\
    Result.sshInfo r = Some (entry_result e) /\
    objects m' !! entry_result e
    = Some (SshResult.set_timestamp (entry_timestamp e) o) /\
    (forall a, a <> entry_result e -> objects m' !! a = objects m !! a) /\
    probes m' = probes m /\ sshCache m' = sshCache m /\
    (forall captured, SshResult.lastCheck o = Some captured ->
       captured <> "" -> Result.lastCheck r = captured) /\
    (SshResult.lastCheck o = None ->
       Result.lastCheck r = getLocaleTimeString (now_result w)).
Proof.
  intros Ht He Hlt Ho. unfold checkServer, evaluate. rewrite Ht.
  unfold cachedSSH, cache_lookup. rewrite (valid_entry_hit _ _ _ _ _ He Hlt).
  rewrite conclude_some. eexists _, _. split; [done|].
  destruct (with_label_fields server
              (ssh_result server w (entry_result e)
                 {| objects := alter (SshResult.set_timestamp
                                        (entry_timestamp e))
                                 (entry_result e) (objects m);
                    sshCache := sshCache m; probes := probes m |}))
    as (_ & _ & -> & _ & ->).
  simpl. split; [done|].
  rewrite lookup_alter_eq, Ho. simpl. split; [done|].
  split; [intros a Ha; by rewrite lookup_alter_ne|].
  split; [done|]. split; [done|].
  assert (alter (SshResult.set_timestamp (entry_timestamp e))
            (entry_result e) (objects m) !!! entry_result e
          = SshResult.set_timestamp (entry_timestamp e) o) as ->.
  { apply lookup_total_correct. by rewrite lookup_alter_eq, Ho. }
  unfold or_now, nonempty. simpl. split.
  - intros captured -> Hne. simpl.
    destruct (String.eqb_spec captured ""); done.
  - by intros ->.
Qed.


(** ** Rendering *)

(** X1. The seven widths and the 9 columns of borders add up to the
    terminal width, whatever it is. *)
Theorem column_widths_fill (columns : option Z) :
  length (calculateColumnWidths columns) = 7%nat /\
  foldl Z.add 9 (calculateColumnWidths columns) = terminal_width columns.
Proof.
  unfold calculateColumnWidths, fixed_widths.
  repeat case_match; simpl; split; try done; lia.
Qed.

(** X2. The last column, Details, gets what the fixed columns leave.
    That is positive exactly for a terminal of 84 to 99 columns or of
    at least 108; from 100 to 107 columns it is zero or negative. *)
Theorem details_column_width (columns : option Z) :
  exists w, last (calculateColumnWidths columns) = Some w /\
    (0 < w <-> 84 <= terminal_width columns < 100
               \/ 108 <= terminal_width columns).
Proof.
  unfold calculateColumnWidths, fixed_widths.
  repeat case_match; simpl; eexists; (split; [done|]); lia.
Qed.

(** X3. The rows for the servers are the results, each once and in
    order, whatever group headers and spacers come between them. *)
Theorem table_rows_results (results : list Result.t)
    (lastGroupName : option string) :
  omap row_result (table_rows lastGroupName results) = results.
Proof.
  revert lastGroupName.
  induction results as [|r rest IH]; intros lastGroupName; simpl; [done|].
  repeat case_match; simpl; by rewrite IH.
Qed.

(** X4. A run of results with one group label, coming after a result
    of another group or of none, is shown under a single header. *)
Theorem table_rows_group (g : string) (lastGroupName : option string)
    (run rest : list Result.t) :
  g <> "" ->
  lastGroupName <> Some g ->
  run <> [] ->
  Forall (fun r => Result.groupName r = Some g) run ->
  table_rows lastGroupName (run ++ rest)%list
  = (Spacer :: GroupHeader g :: (ServerRow <$> run)
     ++ table_rows (Some g) rest)%list.
Proof.
  intros Hg Hlast Hne Hrun.
  assert (nonempty (Some g) = true) as Hn.
  { unfold nonempty. simpl. by destruct g. }
  assert (forall rs, Forall (fun r => Result.groupName r = Some g) rs ->
            table_rows (Some g) (rs ++ rest)%list
            = ((ServerRow <$> rs) ++ table_rows (Some g) rest)%list) as Hsame.
  { induction 1 as [|r rs Hr _ IH]; simpl; [done|].
    rewrite Hr, Hn, bool_decide_eq_true_2 by done. simpl. by rewrite IH. }
  destruct Hrun as [|r rs Hr Hrs]; [done|]. simpl.
  rewrite Hr, Hn, bool_decide_eq_false_2 by done. simpl.
  by rewrite Hsame.
Qed.

(** X5. The header's count of servers up never exceeds the total, and
    equals it exactly when every status is UP or MAINTENANCE. *)
Theorem upCount_total (results : list Result.t) :
  (upCount results <= length results)%nat /\
  (upCount results = length results <->
   Forall (fun r => Result.status r = UP \/ Result.status r = MAINTENANCE)
     results).
Proof.
  unfold upCount. split; [apply length_filter|].
  induction results as [|r rest IH]; simpl; [split; constructor|].
  rewrite filter_cons.
  pose proof (length_filter (fun r => counts_up (Result.status r) = true) rest).
  destruct (decide (counts_up (Result.status r) = true)) as [Hup|Hup]; simpl.
  - split.
    + intros [= H']. constructor; [|by apply IH].
      destruct (Result.status r); simpl in Hup; auto; done.
    + intros Hall. inversion Hall; subst. f_equal. by apply IH.
  - split; [lia|].
    intros Hall. inversion Hall as [|? ? [Hs|Hs]]; subst;
      rewrite Hs in Hup; done.
Qed.


Lemma append_nonempty_l (a b : string) : a <> "" -> (a ++ b)%string <> "".
Proof. destruct a; [done|]. simpl. done. Qed.

Lemma append_nonempty_r (a b : string) : b <> "" -> (a ++ b)%string <> "".
Proof. destruct a; simpl; done. Qed.

Lemma join_nonempty (sep : string) (items : list string) :
  items <> [] -> Forall (fun s => s <> "") items -> join sep items <> "".
Proof.
  destruct items as [|x rest]; [done|]. intros _ Hall.
  inversion Hall; subst. simpl.
  destruct rest; [done|]. by apply append_nonempty_l.
Qed.

Lemma nonempty_default (o : option string) :
  nonempty o = true -> default "" o <> "".
Proof.
  unfold nonempty. destruct o as [s|]; simpl; [|done].
  destruct (String.eqb_spec s ""); done.
Qed.

Lemma error_or_dash_nonempty (e : option string) : error_or_dash e <> "".
Proof.
  unfold error_or_dash. destruct (nonempty e) eqn:He; [|done].
  by apply nonempty_default.
Qed.

Lemma mismatch_text_nonempty (d : ResponseCheckDetails) :
  mismatch_text d <> "".
Proof.
  unfold mismatch_text. by apply append_nonempty_r.
Qed.

Lemma detail_items_nonempty (r : Result.t) :
  Forall (fun s => s <> "") (detail_items r).
Proof.
  unfold detail_items.
  destruct (Result.details r); simpl;
    repeat (first
      [ apply Forall_nil_2 | apply Forall_cons_2 | apply Forall_app_2
      | match goal with
        | |- Forall _ (if ?b then _ else _) => destruct b eqn:?
        | |- Forall _ (match ?x with _ => _ end) => destruct x eqn:?
        end ]);
    first [ done
          | by apply nonempty_default
          | apply mismatch_text_nonempty
          | case_match; [by apply nonempty_default | done] ].
Qed.

Lemma ssh_items_nonempty (r : Result.t) (m : Monitor) :
  Forall (fun s => s <> "") (ssh_items r m).
Proof.
  unfold ssh_items. case_match eqn:He.
  - constructor; [by apply nonempty_default|constructor].
  - apply Forall_app_2.
    + case_match; [|constructor]. constructor; [done|constructor].
    + case_match eqn:H; [|constructor].
      constructor; [by apply nonempty_default|constructor].
Qed.

(** X6. The Details cell is never empty: with nothing to report it is
    a dash, or OK for an ssh target, and every item joined into it is a
    non-empty string. *)
Theorem formatDetails_nonempty (r : Result.t) (m : Monitor) :
  formatDetails r m <> "".
Proof.
  unfold formatDetails.
  destruct (Result.details r); [apply error_or_dash_nonempty|..];
    (destruct (Result.type r); [apply error_or_dash_nonempty|..]);
    try (pose proof (ssh_items_nonempty r m) as Hs;
         destruct (ssh_items r m) eqn:E; [done|];
         by apply join_nonempty);
    (pose proof (detail_items_nonempty r) as Hs;
     destruct (detail_items r) eqn:E; [done|];
     by apply join_nonempty).
Qed.

(** X7. A unified target that is up, with ping and API fine and no SSH
    check, still shows an item: its details carry no [statusOk], so the
    first push always happens, and with no status detail it is [HTTP]
    followed by the ping mark. *)
Theorem unified_up_shows_mark (server : Server.t) (w : World)
    (api : ApiResult) (m : Monitor) :
  Server.type server = TAll ->
  statusOk api = true ->
  responseOk api <> Some false ->
  let r := all_result server w true api None m in
  Result.status r = UP /\ formatDetails r m = "HTTP ✓".
Proof.
  intros Ht Hs Hr r. subst r.
  unfold all_result, unified_rules. rewrite Hs. simpl.
  assert (is_false (responseOk api) = false) as ->.
  { destruct (responseOk api) as [[]|]; done. }
  simpl. split; [done|].
  unfold formatDetails, detail_items. simpl. rewrite Ht.
  assert (is_false (responseOk api) = false) as ->.
  { destruct (responseOk api) as [[]|]; done. }
  by destruct (responseCheckDetails api).
Qed.


(** ** The monitor's state *)

Lemma same_outcome_refl (o : SshResult.t) : same_outcome o o.
Proof. by repeat split. Qed.

Lemma keeps_objects_refl (m : Monitor) : keeps_objects m m.
Proof. intros addr o Ho. exists o. split; [done|apply same_outcome_refl]. Qed.

Lemma keeps_objects_trans (m1 m2 m3 : Monitor) :
  keeps_objects m1 m2 -> keeps_objects m2 m3 -> keeps_objects m1 m3.
Proof.
  intros H12 H23 addr o Ho.
  destruct (H12 addr o Ho) as (o2 & Ho2 & S2).
  destruct (H23 addr o2 Ho2) as (o3 & Ho3 & S3).
  exists o3. split; [done|].
  destruct S2 as (?&?&?&?&?&?), S3 as (?&?&?&?&?&?).
  repeat split; congruence.
Qed.

Lemma cache_lookup_state (stamp : bool) (now : Z) (key : string)
    (interval : Z) (m : Monitor) :
  let m' := (cache_lookup stamp now key interval m).2 in
  sshCache m' = sshCache m /\ keeps_objects m m' /\
  (cache_wf m -> cache_wf m').
Proof.
  unfold cache_lookup.
  destruct (valid_entry m key now interval) as [e|]; simpl.
  - destruct stamp; simpl.
    + split; [done|]. split.
      * intros addr o Ho. simpl.
        destruct (decide (entry_result e = addr)) as [->|].
        -- rewrite lookup_alter_eq, Ho. simpl. eexists. split; [done|].
           by repeat split.
        -- rewrite lookup_alter_ne by done. exists o.
           split; [done|apply same_outcome_refl].
      * intros Hwf k e' He'. simpl in *.
        apply lookup_alter_is_Some, (Hwf k e' He').
    + split; [done|]. split; [apply keeps_objects_refl|done].
  - split; [done|]. split; [|done].
    intros addr o Ho. exists o. split; [done|apply same_outcome_refl].
Qed.

Lemma cache_store_state (now : Z) (key : string) (r : SshResult.t)
    (m : Monitor) :
  let m' := (cache_store now key r m).2 in
  probes m' = probes m /\ keeps_objects m m' /\
  (cache_wf m -> cache_wf m').
Proof.
  unfold cache_store. simpl. split; [done|].
  assert (objects m !! fresh (dom (objects m)) = None) as Hfresh.
  { apply not_elem_of_dom, is_fresh. }
  split.
  - intros addr o Ho. exists o. split; [|apply same_outcome_refl]. simpl.
    rewrite lookup_insert_ne; [done|]. intros <-. congruence.
  - intros Hwf k e He. simpl in *.
    destruct (decide (key = k)) as [->|Hne].
    + rewrite lookup_insert_eq in He. injection He as <-. simpl.
      rewrite lookup_insert_eq. by eexists.
    + rewrite lookup_insert_ne in He by done.
      destruct (Hwf k e He) as [o Ho].
      apply lookup_insert_is_Some. destruct (decide
        (fresh (dom (objects m)) = entry_result e)); [by left|right].
      split; [done|by eexists].
Qed.

Lemma start_state (w : World) (server : Server.t) (m : Monitor) :
  let m' := (start w server m).2 in
  keeps_objects m m' /\ (cache_wf m -> cache_wf m').
Proof.
  unfold start. destruct (Server.type server); simpl;
    try (split; [apply keeps_objects_refl|done]).
  pose proof (cache_lookup_state true (now_lookup w) (ssh_key server)
                (checkInterval (Server.sshCheckInterval server)) m)
    as (_ & Hk & Hwf).
  destruct (cache_lookup _ _ _ _ _) as [[addr|] m1]; simpl in *; done.
Qed.

Lemma resume_state (t : Task) (m : Monitor) :
  let m' := (resume t m).2 in
  keeps_objects m m' /\ (cache_wf m -> cache_wf m').
Proof.
  destruct t as [o|w server|w server key build]; simpl.
  - split; [apply keeps_objects_refl|done].
  - destruct (Server.type server); simpl;
      try (split; [apply keeps_objects_refl|done]).
    destruct (checkApi _ _ _) as [api|msg]; simpl;
      [|split; [apply keeps_objects_refl|done]].
    destruct (enabled_ssh server) as [c|]; simpl;
      [|split; [apply keeps_objects_refl|done]].
    pose proof (cache_lookup_state false (now_lookup w) (all_key server c)
                  (checkInterval (SshConfig.checkInterval c)) m)
      as (_ & Hk & Hwf).
    destruct (cache_lookup _ _ _ _ _) as [[addr|] m1]; simpl in *; done.
  - destruct (checkSSH _ _) as [r|msg]; simpl;
      [|split; [apply keeps_objects_refl|done]].
    pose proof (cache_store_state (now_stored w) key r m) as (_ & Hk & Hwf).
    simpl in *. done.
Qed.


Lemma cachedSSH_state (stamp : bool) (w : World) (key : string)
    (interval : Z) (m : Monitor) :
  let m' := (cachedSSH stamp w key interval m).2 in
  keeps_objects m m' /\ (cache_wf m -> cache_wf m').
Proof.
  unfold cachedSSH.
  pose proof (cache_lookup_state stamp (now_lookup w) key interval m)
    as (_ & Hk & Hwf).
  destruct (cache_lookup _ _ _ _ _) as [[addr|] m1]; simpl in *; [done|].
  destruct (checkSSH _ _) as [r|msg]; simpl; [|done].
  pose proof (cache_store_state (now_stored w) key r m1) as (_ & Hk' & Hwf').
  simpl in *. split; [by eapply keeps_objects_trans|auto].
Qed.

Lemma checkServer_state (w : World) (server : Server.t) (m : Monitor) :
  let m' := (checkServer w server m).2 in
  keeps_objects m m' /\ (cache_wf m -> cache_wf m').
Proof.
  unfold checkServer, evaluate.
  destruct (Server.type server); simpl;
    try (split; [apply keeps_objects_refl|done]).
  - pose proof (cachedSSH_state true w (ssh_key server)
                  (checkInterval (Server.sshCheckInterval server)) m) as H.
    destruct (cachedSSH _ _ _ _ _) as [[addr|msg] m1]; simpl in *; done.
  - destruct (checkApi _ _ _) as [api|msg]; simpl;
      [|split; [apply keeps_objects_refl|done]].
    destruct (enabled_ssh server) as [c|]; simpl;
      [|split; [apply keeps_objects_refl|done]].
    pose proof (cachedSSH_state false w (all_key server c)
                  (checkInterval (SshConfig.checkInterval c)) m) as H.
    destruct (cachedSSH _ _ _ _ _) as [[addr|msg] m1]; simpl in *; done.
Qed.

Lemma start_all_state (worlds : nat -> World) (servers : list Server.t) :
  forall (i : nat) (c : Cycle),
    let m' := monitor (start_all worlds i servers c) in
    keeps_objects (monitor c) m' /\ (cache_wf (monitor c) -> cache_wf m').
Proof.
  induction servers as [|server rest IH]; intros i c; simpl.
  - split; [apply keeps_objects_refl|done].
  - pose proof (start_state (worlds i) server (monitor c)) as [Hk Hwf].
    destruct (start (worlds i) server (monitor c)) as [t m1]. simpl in *.
    destruct (IH (S i) {| promises := (promises c ++ [t])%list; monitor := m1;
                          rejected := note (AwaitProbes (worlds i) server) t
                                        (rejected c) |}) as [Hk' Hwf'].
    simpl in *. split; [by eapply keeps_objects_trans|auto].
Qed.

Lemma run_state (schedule : list nat) :
  forall (c : Cycle),
    let m' := monitor (foldl step c schedule) in
    keeps_objects (monitor c) m' /\ (cache_wf (monitor c) -> cache_wf m').
Proof.
  induction schedule as [|i rest IH]; intros c; simpl.
  - split; [apply keeps_objects_refl|done].
  - destruct (IH (step c i)) as [Hk' Hwf'].
    assert (keeps_objects (monitor c) (monitor (step c i)) /\
            (cache_wf (monitor c) -> cache_wf (monitor (step c i))))
      as [Hk Hwf].
    { unfold step. destruct (promises c !! i) as [t|];
        [|split; [apply keeps_objects_refl|done]].
      pose proof (resume_state t (monitor c)) as H.
      destruct (resume t (monitor c)) as [t' m1]. simpl in *. done. }
    split; [by eapply keeps_objects_trans|auto].
Qed.

(** X8. Every cache entry refers to an outcome object that exists:
    this holds of a new monitor and is kept by an evaluation and by a
    whole cycle, whatever the order in which its probes resolve. *)
Theorem cache_entries_allocated :
  cache_wf new_monitor /\
  (forall w server m,
     cache_wf m -> cache_wf (checkServer w server m).2) /\
  (forall worlds schedule servers m,
     cache_wf m -> cache_wf (monitor (run_cycle worlds schedule servers m))).
Proof.
  split; [intros key e He; simpl in He; by rewrite lookup_empty in He|].
  split.
  - intros w server m. apply checkServer_state.
  - intros worlds schedule servers m Hwf. unfold run_cycle.
    apply run_state. by apply start_all_state.
Qed.

(** X9. Evaluations never remove or replace an outcome object: what a
    result of an earlier cycle refers to through [sshInfo] is still
    there afterwards, the same but for the [timestamp] a cache hit of an
    ssh target writes onto it. *)
Theorem outcome_objects_kept :
  (forall w server m, keeps_objects m (checkServer w server m).2) /\
  (forall worlds schedule servers m,
     keeps_objects m (monitor (run_cycle worlds schedule servers m))).
Proof.
  split.
  - intros w server m. apply checkServer_state.
  - intros worlds schedule servers m. unfold run_cycle.
    eapply keeps_objects_trans; [|apply run_state].
    apply (start_all_state worlds (calls servers) 0%nat
             {| promises := []; monitor := m; rejected := None |}).
Qed.


(** X10. A ping or api evaluation leaves the monitor's state as it is,
    and so does a unified evaluation that finds a valid cache entry: it
    uses the cached object without writing to it. *)
Theorem evaluations_without_effect (w : World) (server : Server.t)
    (m : Monitor) :
  (Server.type server = TPing \/ Server.type server = TApi ->
   (checkServer w server m).2 = m) /\
  (forall c api e,
     Server.type server = TAll ->
     enabled_ssh server = Some c ->
     checkApi (http_event w) (Server.expectedStatus server)
       (Server.expectedResponse server) = Normal api ->
     sshCache m !! all_key server c = Some e ->
     now_lookup w - entry_timestamp e
       < checkInterval (SshConfig.checkInterval c) ->
     exists r, checkServer w server m = (Normal (Some r), m) /\
       Result.sshInfo r = Some (entry_result e)).
Proof.
  split.
  - unfold checkServer, evaluate. intros [Ht | Ht]; rewrite Ht; reflexivity.
  - intros c api e Ht Hc Hapi He Hlt. unfold checkServer, evaluate.
    rewrite Ht, Hapi, Hc. unfold cachedSSH, cache_lookup.
    rewrite (valid_entry_hit _ _ _ _ _ He Hlt). rewrite conclude_some.
    eexists. split; [done|].
    destruct (with_label_fields server
                (all_result server w (ping (ping_event w)) api
                   (Some (entry_result e)) m)) as (_ & _ & _ & _ & ->).
    unfold all_result. by destruct (ssh_overlay _ _) as [[? ?] ?].
Qed.

Lemma labelled_ssh_down (server : Server.t) (w : World) (addr : nat)
    (m : Monitor) (o : SshResult.t) :
  objects m !! addr = Some o ->
  SshResult.success o = false ->
  let r := with_label server (ssh_result server w addr m) in
  Result.status r = DOWN /\ Result.error r = SshResult.error o /\
  Result.sshInfo r = Some addr.
Proof.
  intros Ho Hs r. subst r.
  destruct (with_label_fields server (ssh_result server w addr m))
    as (-> & -> & _ & _ & ->).
  unfold ssh_result. rewrite (lookup_total_correct _ _ _ Ho), Hs. done.
Qed.

(** X11. A failed SSH probe is cached like any other outcome. When the
    session of an ssh target times out, the result is DOWN with the
    error [SSH timeout]; and an evaluation less than the interval after
    the entry was stored is DOWN with that error again, without a probe,
    whatever the session would do now. *)
Theorem ssh_failure_is_cached (w1 w2 : World) (server : Server.t)
    (m : Monitor) :
  Server.type server = TSsh ->
  valid_entry m (ssh_key server) (now_lookup w1)
    (checkInterval (Server.sshCheckInterval server)) = None ->
  ssh_event w1 = SshTimerFired ->
  now_lookup w2 - now_stored w1
    < checkInterval (Server.sshCheckInterval server) ->
  exists r1 m1 r2 m2,
    checkServer w1 server m = (Normal (Some r1), m1) /\
    Result.status r1 = DOWN /\ Result.error r1 = Some "SSH timeout" /\
    checkServer w2 server m1 = (Normal (Some r2), m2) /\
    Result.status r2 = DOWN /\ Result.error r2 = Some "SSH timeout" /\
    probes m2 = probes m1 /\ Result.sshInfo r2 = Result.sshInfo r1.
Proof.
  intros Ht Hmiss Hev Hlt. unfold checkServer, evaluate. rewrite Ht.
  unfold cachedSSH, cache_lookup at 1. rewrite Hmiss, Hev. simpl.
  rewrite !conclude_some. eexists _, _, _, _. split; [done|].
  set (addr := fresh (dom (objects m))).
  set (o := {| SshResult.success := false;
               SshResult.error := Some "SSH timeout";
               SshResult.motd := None; SshResult.rebootRequired := false;
               SshResult.updates := None; SshResult.lastCheck := None;
               SshResult.timestamp := None |}).
  match goal with
  | |- Result.status (with_label _ (ssh_result _ _ _ ?m1)) = _ /\ _ =>
      destruct (labelled_ssh_down server w1 addr m1 o) as (H1 & H2 & H3);
        [simpl; by rewrite lookup_insert_eq | done |];
      assert (valid_entry m1 (ssh_key server) (now_lookup w2)
                (checkInterval (Server.sshCheckInterval server))
              = Some {| entry_result := addr;
                        entry_timestamp := now_stored w1 |}) as Hhit
        by (apply valid_entry_hit; [simpl; by rewrite lookup_insert_eq|done])
  end.
  split; [exact H1|]. split; [exact H2|].
  unfold cache_lookup. rewrite Hhit. simpl. rewrite conclude_some.
  split; [done|].
  match goal with
  | |- Result.status (with_label _ (ssh_result _ _ _ ?m2)) = _ /\ _ =>
      destruct (labelled_ssh_down server w2 addr m2
                  (SshResult.set_timestamp (now_stored w1) o))
        as (H1' & H2' & H3');
        [simpl; by rewrite lookup_alter_eq, lookup_insert_eq | done |]
  end.
  split; [exact H1'|]. split; [exact H2'|]. split; [done|].
  etrans; [exact H3'|symmetry; exact H3].
Qed.


Lemma replicate_snoc_cons {A : Type} (n : nat) (x : A) (l : list A) :
  (replicate n x ++ x :: l = x :: replicate n x ++ l)%list.
Proof. induction n as [|n IH]; simpl; [done|]. by rewrite IH. Qed.

Lemma resume_no_probe (t : Task) (m : Monitor) :
  (remaining t <= 1)%nat ->
  probes (resume t m).2 = probes m /\ (remaining (resume t m).1 <= 1)%nat.
Proof.
  destruct t as [o|w server|w server key build]; simpl; [done|lia|].
  intros _. destruct (checkSSH _ _); simpl; split; done || lia.
Qed.

Lemma start_all_probes (worlds : nat -> World) (key : string)
    (servers : list Server.t) :
  forall (i : nat) (c : Cycle),
    Forall (fun s => Server.type s = TSsh /\ ssh_key s = key) servers ->
    sshCache (monitor c) !! key = None ->
    Forall (fun t => (remaining t <= 1)%nat) (promises c) ->
    let c' := start_all worlds i servers c in
    probes (monitor c')
    = (replicate (length servers) key ++ probes (monitor c))%list /\
    Forall (fun t => (remaining t <= 1)%nat) (promises c').
Proof.
  induction servers as [|server rest IH]; intros i c Hall Hnone Hrem; simpl;
    [done|].
  inversion Hall as [|? ? [Ht Hk] Hrest]; subst.
  unfold start. rewrite Ht. unfold cache_lookup, valid_entry.
  rewrite Hnone. simpl.
  edestruct (IH (S i)) as [Hp Hr]; [exact Hrest| |
    |rewrite Hp; simpl; split; [apply replicate_snoc_cons|exact Hr]].
  - done.
  - simpl. apply Forall_app_2; [done|]. constructor; [simpl; lia|constructor].
Qed.

Lemma run_probes (schedule : list nat) :
  forall (c : Cycle),
    Forall (fun t => (remaining t <= 1)%nat) (promises c) ->
    probes (monitor (foldl step c schedule)) = probes (monitor c).
Proof.
  induction schedule as [|i rest IH]; intros c Hrem; simpl; [done|].
  assert (probes (monitor (step c i)) = probes (monitor c) /\
          Forall (fun t => (remaining t <= 1)%nat) (promises (step c i)))
    as [Hp Hr].
  { unfold step. destruct (promises c !! i) as [t|] eqn:Hi; [|done].
    destruct (resume_no_probe t (monitor c)) as [Hp Hr].
    { by eapply (Forall_lookup_1 _ _ _ _ Hrem). }
    destruct (resume t (monitor c)) as [t' m1]. simpl in *.
    split; [done|]. by apply Forall_insert. }
  by rewrite IH, Hp.
Qed.

(** X12. Within one cycle the cache does not help targets that share a
    key: ssh targets are looked up when they are called, before any
    probe has resolved, so with no entry under their key every one of
    them invokes the probe, in whatever order the probes resolve. *)
Theorem concurrent_lookups_all_probe (worlds : nat -> World)
    (schedule : list nat) (servers : list Entry) (m : Monitor)
    (key : string) :
  Forall (fun s => Server.type s = TSsh /\ ssh_key s = key) (calls servers) ->
  sshCache m !! key = None ->
  probes (monitor (run_cycle worlds schedule servers m))
  = (replicate (length (calls servers)) key ++ probes m)%list.
Proof.
  intros Hall Hnone. unfold run_cycle.
  destruct (start_all_probes worlds key (calls servers) 0%nat
              {| promises := []; monitor := m; rejected := None |}
              Hall Hnone) as [Hp Hr]; [constructor|].
  by rewrite run_probes.
Qed.


(** ** More on paths and the API probe *)

Lemma split_on_cons (sep : ascii) (s : string) :
  exists hd tl, split_on sep s = hd :: tl.
Proof.
  induction s as [|c s (hd & tl & IH)]; simpl; [by eexists _, _|].
  destruct (Ascii.eqb c sep); [by eexists _, _|]. rewrite IH. by eexists _, _.
Qed.

Lemma split_on_app (sep : ascii) (p q : string) :
  split_on sep (p ++ String sep q)%string
  = (split_on sep p ++ split_on sep q)%list.
Proof.
  induction p as [|c p IH]; simpl.
  - by rewrite Ascii.eqb_refl.
  - destruct (Ascii.eqb c sep); [by rewrite IH|].
    rewrite IH. destruct (split_on_cons sep p) as (hd & tl & ->). done.
Qed.

Lemma reduce_path_bind (before after : list string) (v : JsVal) :
  reduce_path v (before ++ after)%list
  = x ← reduce_path v before; reduce_path x after.
Proof.
  revert v. induction before as [|k rest IH]; intros v; simpl; [done|].
  destruct (optional_member v k) as [x|msg]; simpl; [apply IH|done].
Qed.

(** X13. Resolving [p.q] is resolving [p] and then [q] from what [p]
    gave, for all paths [p] and [q]. *)
Theorem getValueByPath_compose (obj : JsVal) (p q : string) :
  getValueByPath obj (p ++ "." ++ q)%string
  = v ← getValueByPath obj p; getValueByPath v q.
Proof.
  unfold getValueByPath.
  change (p ++ "." ++ q)%string with (p ++ String "."%char q)%string.
  by rewrite split_on_app, reduce_path_bind.
Qed.

(** X14. With the expected status and an assertion configured, an api
    target is UP when the resolved value is strictly equal to the
    expected one and UNHEALTHY with [Health check failed] otherwise; a
    body that does not parse is such a failure, recorded with
    [parseError] and a [null] actual value. *)
Theorem body_assertion_decides (server : Server.t) (w : World)
    (er : ExpectedResponse) (data : string) :
  Server.expectedResponse server = Some er ->
  let api := on_response_end (Server.expectedStatus server)
               (Server.expectedStatus server) (Some er) data in
  let r := api_result server w api in
  (Result.status r = UP /\ responseOk api = Some true
   \/ Result.status r = UNHEALTHY /\ responseOk api = Some false /\
      statusDetails (Result.details r) = Some "Health check failed") /\
  (Result.status r = UP <->
   exists json v, JSON_parse data = Normal json /\
     getValueByPath json (path er) = Normal v /\
     strict_eq v (value er) = true) /\
  (forall msg, JSON_parse data = Throw msg ->
     Result.status r = UNHEALTHY /\
     responseCheckDetails api
     = Some {| rcd_path := path er; rcd_expected := value er;
               rcd_actual := JNull; rcd_match := false;
               rcd_parseError := true |}).
Proof.
  intros Her api r. subst api r.
  unfold api_result, api_rules, on_response_end, check_body.
  rewrite Z.eqb_refl. simpl.
  destruct (JSON_parse data) as [json|msg]; simpl.
  - destruct (getValueByPath json (path er)) as [v|msg] eqn:Hv; simpl.
    + destruct (strict_eq v (value er)) eqn:Heq; simpl.
      * split; [by left|]. split; [|done]. split; [|done].
        intros _. by exists json, v.
      * split; [right; done|]. split; [|done].
        split; [done|]. intros (json' & v' & [= <-] & Hv' & Heq').
        rewrite Hv in Hv'. injection Hv' as <-. congruence.
    + split; [right; done|]. split; [|done].
      split; [done|]. intros (json' & v' & [= <-] & Hv' & _). congruence.
  - split; [right; done|]. split; [|by intros msg' [= <-]].
    split; [done|]. by intros (json & v & [=] & _).
Qed.


(** ** More on the probes and their fusion *)


Lemma unified_rules_up (ev : HttpEvent) (expected : Z)
    (er : option ExpectedResponse) (pingOk : bool) (api : ApiResult) :
  checkApi ev expected er = Normal api ->
  (unified_rules pingOk api expected).1.1 = UP
  <-> pingOk = true /\ success api = true.
Proof.
  intros Hapi. destruct (checkApi_outcome _ _ _ _ Hapi) as [Hsucc Herr].
  unfold unified_rules. rewrite Hsucc.
  destruct (error api) as [msg|].
  - destruct Herr as (-> & -> & _). destruct pingOk; simpl; split; try done;
      by intros [? ?].
  - destruct Herr as (code & ok & _ & ->).
    destruct pingOk, (statusOk api), ok; simpl; split; try done;
      by intros [? ?].
Qed.

Lemma all_result_status (server : Server.t) (w : World) (pingOk : bool)
    (api : ApiResult) (ssh : option nat) (m : Monitor) :
  Result.status (all_result server w pingOk api ssh m)
  = (ssh_overlay ((fun addr => objects m !!! addr) <$> ssh)
       (unified_rules pingOk api (Server.expectedStatus server))).1.1.
Proof. unfold all_result. by destruct (ssh_overlay _ _) as [[? ?] ?]. Qed.

(** X16. A unified result counts as up (UP or MAINTENANCE) exactly when
    the ping succeeded, the API check succeeded and the SSH outcome, if
    there is one, is a success. *)
Theorem unified_up_iff (server : Server.t) (w : World) (ev : HttpEvent)
    (pingOk : bool) (api : ApiResult) (ssh : option nat) (m : Monitor) :
  checkApi ev (Server.expectedStatus server) (Server.expectedResponse server)
  = Normal api ->
  counts_up (Result.status (all_result server w pingOk api ssh m)) = true
  <-> pingOk = true /\ success api = true /\
      (forall addr, ssh = Some addr ->
         SshResult.success (objects m !!! addr) = true).
Proof.
  intros Hapi. rewrite all_result_status.
  pose proof (unified_rules_up ev _ _ pingOk api Hapi) as Hup.
  pose proof (unified_rules_status pingOk api (Server.expectedStatus server))
    as Hin.
  destruct (unified_rules pingOk api (Server.expectedStatus server))
    as [[status sd] ce] eqn:Hrules. simpl in Hup, Hin.
  destruct (decide (status = UP)) as [->|Hne].
  - destruct (proj1 Hup eq_refl) as [-> ->].
    destruct ssh as [addr|]; simpl.
    + destruct (SshResult.success (objects m !!! addr)) eqn:Hs; simpl.
      * split; [intros _; repeat split; by intros ? [= <-]|].
        intros _. by repeat case_match.
      * split; [done|]. intros (_ & _ & H). specialize (H _ eq_refl).
        congruence.
    + split; [intros _; repeat split; by intros ? [=]|done].
  - rewrite ssh_overlay_not_up by done. simpl. split.
    + intros Hc. apply list_elem_of_In in Hin. simpl in Hin.
      destruct Hin as [<-|[<-|[<-|[<-|[]]]]]; done.
    + intros (Hp & Hs & _). destruct Hne. apply Hup. done.
Qed.


(** X17. The port of an SSH check: a configured port other than 0 is
    used as it is; without one, port 22 is taken when a user name is
    given, and with neither there is no port at all. So a target that
    names port 22 and one that names none, for the same host and user,
    share one cache entry. *)
Theorem sshPort_default (host : string) (port : option Z)
    (username : option string) :
  (forall p, port = Some p -> p <> 0 -> sshPort port username = JNum p) /\
  (port = None \/ port = Some 0 ->
     (nonempty username = true ->
        sshPort port username = JNum 22 /\
        cacheKey host (sshPort port username) username
        = cacheKey host (sshPort (Some 22) username) username) /\
     (nonempty username = false -> truthy (sshPort port username) = false)).
Proof.
  unfold sshPort, js_or, js_and, nonempty. split.
  - intros p -> Hp. simpl. by rewrite (proj2 (Z.eqb_neq p 0) Hp).
  - intros Hport.
    assert (truthy (of_num port) = false) as ->
      by (destruct Hport as [-> | ->]; done).
    split; intros Hu; rewrite Hu; [done|]. by destruct username.
Qed.


(** X18. A ping target is UP or DOWN and nothing else, without error
    and without touching the monitor; it is UP only when the command
    came back with nothing on its error stream and one of the two
    success lines in its output. *)
Theorem ping_target_up_or_down (w : World) (server : Server.t) (m : Monitor) :
  Server.type server = TPing ->
  exists r, checkServer w server m = (Normal (Some r), m) /\
    Result.status r = (if ping (ping_event w) then UP else DOWN) /\
    Result.error r = None /\
    (Result.status r = UP ->
       exists stdout, ping_event w = ExecResolved stdout "" /\
         (includes stdout "1 packets transmitted, 1 received, 0% packet loss"
          = true
          \/ includes stdout "1 packets received" = true)).
Proof.
  intros Ht. unfold checkServer, evaluate. rewrite Ht, conclude_some.
  eexists. split; [done|].
  destruct (with_label_fields server (ping_result server w))
    as (-> & -> & _). unfold ping_result. simpl.
  split; [done|]. split; [done|].
  unfold ping. destruct (ping_event w) as [stdout stderr|]; [|done].
  destruct stderr; simpl; [|done].
  destruct (includes stdout
              "1 packets transmitted, 1 received, 0% packet loss") eqn:H1;
    simpl; [intros _; exists stdout; auto|].
  destruct (includes stdout "1 packets received") eqn:H2; simpl;
    [intros _; exists stdout; auto|done].
Qed.

Lemma note_rejected (t t' : Task) (msg : string) :
  note t t' (Some msg) = Some msg.
Proof. done. Qed.

Lemma start_all_rejected (worlds : nat -> World) (servers : list Server.t) :
  forall (i : nat) (c : Cycle),
    is_Some (rejected c) \/
    (exists s name, s ∈ servers /\ Server.type s = TOther name /\
       nonempty (Server.groupName s) = true) ->
    is_Some (rejected (start_all worlds i servers c)).
Proof.
  induction servers as [|server rest IH]; intros i c H; simpl.
  - destruct H as [H|(s & name & Hin & _)]; [done|]. by apply elem_of_nil in Hin.
  - destruct (start (worlds i) server (monitor c)) as [t m1] eqn:Hst.
    apply IH. simpl.
    destruct H as [[msg Hr]|(s & name & Hin & Ht & Hg)].
    + left. rewrite Hr. by eexists.
    + apply elem_of_cons in Hin as [->|Hin]; [|right; eauto].
      left. unfold start in Hst. rewrite Ht in Hst. injection Hst as <- <-.
      unfold conclude. simpl. rewrite Hg.
      destruct (rejected c); simpl; by eexists.
Qed.

Lemma run_rejected (schedule : list nat) :
  forall (c : Cycle),
    is_Some (rejected c) -> is_Some (rejected (foldl step c schedule)).
Proof.
  induction schedule as [|i rest IH]; intros c Hr; simpl; [done|].
  apply IH. unfold step. destruct (promises c !! i) as [t|]; [|done].
  destruct (resume t (monitor c)) as [t' m1]. simpl.
  destruct Hr as [msg ->]. by eexists.
Qed.

(** X19. The boundary of the [try]: for a type none of the branches
    names there is no result to put the group label on, so such a
    target inside a named group makes its evaluation throw, and the
    whole cycle is rejected, whatever the other targets do. *)
Theorem unknown_type_in_group_rejects (worlds : nat -> World)
    (schedule : list nat) (servers : list Entry) (m : Monitor)
    (s : Server.t) (name : string) :
  s ∈ calls servers ->
  Server.type s = TOther name ->
  nonempty (Server.groupName s) = true ->
  (forall w m', exists msg, (checkServer w s m').1 = Throw msg) /\
  exists msg,
    (checkAllServers worlds schedule servers m).1 = Some (Throw msg).
Proof.
  intros Hin Ht Hg. split.
  - intros w m'. unfold checkServer, evaluate, conclude. rewrite Ht. simpl.
    rewrite Hg. by eexists.
  - unfold checkAllServers, promise_all, run_cycle. simpl.
    destruct (run_rejected schedule
                (start_all worlds 0 (calls servers)
                   {| promises := []; monitor := m; rejected := None |}))
      as [msg ->]; [|by eexists].
    apply start_all_rejected. right. eauto.
Qed.

(** X20. On Linux the wait handed to [ping] is the whole seconds of the
    timeout: never negative, never more than the timeout, and short of
    it by less than a second. *)
Theorem ping_wait_whole_seconds (timeout : Z) :
  0 <= timeout ->
  0 <= ping_wait true timeout /\
  1000 * ping_wait true timeout <= timeout
  < 1000 * ping_wait true timeout + 1000.
Proof.
  intros Hpos. unfold ping_wait. simpl.
  pose proof (Z.div_mod timeout 1000 ltac:(lia)).
  pose proof (Z.mod_pos_bound timeout 1000 ltac:(lia)).
  split; [apply Z.div_pos; lia|lia].
Qed.


(** X21. An ssh target probed afresh whose session closes is never
    DOWN, whatever the remote command printed: it is MAINTENANCE when
    the output has the restart marker or a count of updates that is not
    zero, and UP otherwise; its Details cell then reads [OK]. *)
Theorem ssh_target_closed_session (w : World) (server : Server.t)
    (m : Monitor) (output : string) :
  Server.type server = TSsh ->
  valid_entry m (ssh_key server) (now_lookup w)
    (checkInterval (Server.sshCheckInterval server)) = None ->
  ssh_event w = SshClosed output ->
  exists r m',
    checkServer w server m = (Normal (Some r), m') /\
    Result.error r = None /\
    Result.lastCheck r
    = or_now (Some (getLocaleTimeString (now_closed w))) (now_result w) /\
    let pending :=
      includes output "System restart required"
      || negb (String.eqb (updatesInfo output) "") in
    Result.status r = (if pending then MAINTENANCE else UP) /\
    (pending = false -> formatDetails r m' = "OK").
Proof.
  intros Ht Hmiss Hev. unfold checkServer, evaluate. rewrite Ht.
  unfold cachedSSH, cache_lookup. rewrite Hmiss, Hev.
  unfold checkSSH, cache_store. rewrite conclude_some.
  cbn [objects sshCache probes].
  set (addr := fresh (dom (objects m))).
  match goal with
  | |- context [ssh_result server w addr ?mm] => set (m1 := mm)
  end.
  exists (with_label server (ssh_result server w addr m1)), m1.
  split; [done|].
  match type of m1 with
  | _ => assert (exists o, objects m1 !!! addr = o /\
           SshResult.success o = true /\ SshResult.error o = None /\
           SshResult.rebootRequired o
           = includes output "System restart required" /\
           SshResult.updates o
           = (if String.eqb (updatesInfo output) "" then None
              else Some (updatesInfo output)) /\
           SshResult.lastCheck o
           = Some (getLocaleTimeString (now_closed w)))
      as (o & Ho & Hs & He & Hr & Hu & Hl)
  end.
  { eexists. split.
    - apply lookup_total_correct. subst m1. cbn [objects].
      apply lookup_insert_eq.
    - done. }
  assert (nonempty (SshResult.updates o)
          = negb (String.eqb (updatesInfo output) "")) as Hne.
  { rewrite Hu. destruct (String.eqb _ "") eqn:E; [done|].
    unfold nonempty. simpl. by rewrite E. }
  destruct (with_label_fields server (ssh_result server w addr m1))
    as (Hst & Her & Hlc & Hd & Hi).
  rewrite Hst, Her, Hlc. unfold ssh_result at 1 2 3.
  rewrite !Ho, Hs, He, Hr, Hl, Hne. simpl.
  split; [done|]. split; [done|]. split; [done|].
  intros Hp. unfold formatDetails, ssh_items.
  assert (Result.type (with_label server (ssh_result server w addr m1)) = TSsh)
    as ->.
  { unfold with_label.
    destruct (nonempty (Server.groupName server)); simpl; exact Ht. }
  rewrite Hd, Her, Hi. unfold ssh_result.
  cbn [Result.details Result.error Result.sshInfo].
  rewrite !Ho, Hs, He. simpl. rewrite !lookup_total_insert_eq. simpl.
  apply orb_false_iff in Hp as [Hp1 Hp2]. apply negb_false_iff in Hp2.
  by rewrite Hp1, Hp2.
Qed.

End Runtime.

(** * The model at work *)



Lemma ping_wait_platform_witness :
  ping_wait true 500 = 0 /\ ping_wait false 500 = 500.
Proof.
  destruct (ping_wait_platform "10.0.0.1" 500) as (_ & H2 & _ & H4); [lia|].
  split; [apply H4; lia|exact H2].
Defined.

(** C2 fails as stated: a response with the wrong status and no
    assertion configured has [responseOk] [true], not [null]. *)
Lemma responseOk_true_counterexample :
  exists r,
    checkApi sample_inherited sample_parse (HttpResponse 404 "null") 200 None
    = Normal r /\
    responseOk r = Some true /\ responseOk r <> None.
Proof. eexists. split; [reflexivity|]. split; [reflexivity|discriminate]. Qed.

Lemma responseOk_without_assertion_witness :
  responseOk (on_response_end sample_inherited sample_parse 404 200 None "null")
  = Some true.
Proof.
  destruct (responseOk_without_assertion sample_inherited sample_parse
              (HttpResponse 404 "null") 200 None _ eq_refl) as [H _].
  destruct (H 404 "null" eq_refl) as [H1 _].
  apply H1. left. reflexivity.
Defined.


Lemma ssh_overlay_only_from_up_witness :
  Result.status
    (all_result sample_time (sample_server TAll)
       (sample_world ExecRejected HttpTimerFired SshTimerFired 0)
       false (api_failure "Timeout") None new_monitor) = DOWN.
Proof.
  destruct (ssh_overlay_only_from_up sample_time (sample_server TAll)
              (sample_world ExecRejected HttpTimerFired SshTimerFired 0)
              false (api_failure "Timeout") None new_monitor)
    as (_ & H & _).
  apply H. discriminate.
Defined.

(** C6 fails as stated: the detail and the error of the result are not
    the string the claim gives. *)
Lemma ping_failed_detail_counterexample :
  exists r m,
    checkServer sample_inherited sample_parse sample_time no_match no_match
      (sample_world ExecRejected (HttpResponse 200 "null") SshTimerFired 0)
      (sample_server TAll) new_monitor = (Normal (Some r), m) /\
    Result.status r = DEGRADED /\
    statusDetails (Result.details r)
      <> Some "Network issue: ping failed, API responding" /\
    Result.error r <> Some "Network issue: ping failed, API responding".
Proof.
  eexists _, _. split; [reflexivity|]. split; [reflexivity|].
  split; discriminate.
Qed.

Lemma ping_failed_api_responding_witness :
  Result.status
    (all_result sample_time (sample_server TAll)
       (sample_world ExecRejected (HttpResponse 200 "null") SshTimerFired 0)
       false
       (on_response_end sample_inherited sample_parse 200 200 None "null")
       None new_monitor) = DEGRADED.
Proof.
  apply (ping_failed_api_responding sample_time (sample_server TAll)).
  reflexivity.
Defined.



(** A first lookup at time 0 probes and stores at time 2; a second one
    at time 1000, with an interval of one hour, returns the same object. *)
Lemma ssh_cache_ttl_witness :
  exists a m1 m2,
    cachedSSH sample_time no_match no_match true
      (sample_world ExecRejected HttpTimerFired (SshClosed "") 0)
      "h:22:admin" 3600000 new_monitor = (Normal a, m1) /\
    cachedSSH sample_time no_match no_match true
      (sample_world ExecRejected HttpTimerFired (SshClosed "") 1000)
      "h:22:admin" 3600000 m1 = (Normal a, m2) /\
    probes m2 = probes m1.
Proof.
  eexists _, _.
  destruct (ssh_cache_ttl sample_time no_match no_match true true
              (sample_world ExecRejected HttpTimerFired (SshClosed "") 0)
              (sample_world ExecRejected HttpTimerFired (SshClosed "") 1000)
              "h:22:admin" 3600000 new_monitor _ _ eq_refl)
    as (e & He & Ha & _ & Hhit & _).
  destruct Hhit as (m2 & H2 & Hp & _).
  - vm_compute in He. injection He as <-. simpl. lia.
  - exists m2. split; [reflexivity|]. split; [exact H2|exact Hp].
Defined.

(** C9 fails as stated: an SSH probe that timed out is cached without a
    capture time, and the evaluation that hits this entry a minute later
    shows the time at which its own result is built. *)
Lemma cached_timeout_lastCheck_counterexample :
  exists r m1 m2 addr,
    m1 = (checkServer sample_inherited sample_parse sample_time no_match
            no_match
            (sample_world ExecRejected HttpTimerFired SshTimerFired 0)
            (sample_server TSsh) new_monitor).2 /\
    checkServer sample_inherited sample_parse sample_time no_match no_match
      (sample_world ExecRejected HttpTimerFired SshTimerFired 60000)
      (sample_server TSsh) m1 = (Normal (Some r), m2) /\
    probes m2 = probes m1 /\
    Result.sshInfo r = Some addr /\
    SshResult.lastCheck <$> objects m2 !! addr = Some None /\
    Result.lastCheck r = sample_time 60003 /\
    Result.lastCheck r <> sample_time 1.
Proof.
  eexists _, _, _, _. split; [reflexivity|].
  split; [vm_compute; reflexivity|].
  split; [reflexivity|]. split; [reflexivity|].
  split; [reflexivity|]. split; [reflexivity|]. vm_compute. discriminate.
Qed.

(** The same a minute after a session that closed at time 1: the
    result shows that capture time. *)
Lemma ssh_cache_hit_lastCheck_witness :
  exists r m2,
    checkServer sample_inherited sample_parse sample_time no_match no_match
      (sample_world ExecRejected HttpTimerFired (SshClosed "") 60000)
      (sample_server TSsh)
      (checkServer sample_inherited sample_parse sample_time no_match no_match
         (sample_world ExecRejected HttpTimerFired (SshClosed "") 0)
         (sample_server TSsh) new_monitor).2
    = (Normal (Some r), m2) /\
    Result.lastCheck r = "1".
Proof.
  destruct (ssh_cache_hit_lastCheck sample_inherited sample_parse sample_time
              no_match no_match
              (sample_world ExecRejected HttpTimerFired (SshClosed "") 60000)
              (sample_server TSsh)
              (checkServer sample_inherited sample_parse sample_time no_match
                 no_match
                 (sample_world ExecRejected HttpTimerFired (SshClosed "") 0)
                 (sample_server TSsh) new_monitor).2
              {| entry_result := 0; entry_timestamp := 2 |}
              {| SshResult.success := true; SshResult.error := None;
                 SshResult.motd := Some ""; SshResult.rebootRequired := false;
                 SshResult.updates := None; SshResult.lastCheck := Some "1";
                 SshResult.timestamp := None |})
    as (r & m2 & H & _ & _ & _ & _ & _ & Hcap & _).
  - reflexivity.
  - vm_compute. reflexivity.
  - vm_compute. reflexivity.
  - vm_compute. reflexivity.
  - exists r, m2. split; [exact H|]. apply Hcap; [reflexivity|discriminate].
Defined.

(** ** The further properties at work *)

Lemma table_rows_group_witness :
  table_rows None
    [Result.set_groupName "edge"
       (error_result sample_time (sample_server TPing)
          (sample_world ExecRejected HttpTimerFired SshTimerFired 0) "x")]
  = [Spacer; GroupHeader "edge";
     ServerRow
       (Result.set_groupName "edge"
          (error_result sample_time (sample_server TPing)
             (sample_world ExecRejected HttpTimerFired SshTimerFired 0) "x"))].
Proof.
  apply (table_rows_group "edge" None
           [Result.set_groupName "edge"
              (error_result sample_time (sample_server TPing)
                 (sample_world ExecRejected HttpTimerFired SshTimerFired 0)
                 "x")] []).
  - discriminate.
  - discriminate.
  - discriminate.
  - repeat constructor.
Defined.

Lemma unified_up_shows_mark_witness :
  formatDetails
    (all_result sample_time (sample_server TAll)
       (sample_world (ExecResolved "1 packets received" "")
          (HttpResponse 200 "null") SshTimerFired 0)
       true
       (on_response_end sample_inherited sample_parse 200 200 None "null")
       None new_monitor)
    new_monitor = "HTTP ✓".
Proof.
  apply (unified_up_shows_mark sample_time (sample_server TAll)).
  - reflexivity.
  - reflexivity.
  - discriminate.
Defined.

Lemma cache_entries_allocated_witness :
  cache_wf
    (checkServer sample_inherited sample_parse sample_time no_match no_match
       (sample_world ExecRejected HttpTimerFired (SshClosed "") 0)
       (sample_server TSsh) new_monitor).2.
Proof.
  destruct (cache_entries_allocated sample_inherited sample_parse sample_time
              no_match no_match) as (H0 & H1 & _).
  apply H1. exact H0.
Defined.

Lemma evaluations_without_effect_witness :
  (checkServer sample_inherited sample_parse sample_time no_match no_match
     (sample_world ExecRejected HttpTimerFired SshTimerFired 0)
     (sample_server TPing) new_monitor).2 = new_monitor.
Proof.
  apply (evaluations_without_effect sample_inherited sample_parse sample_time
           no_match no_match).
  left. reflexivity.
Defined.

Lemma ssh_failure_is_cached_witness :
  exists r1 m1 r2 m2,
    checkServer sample_inherited sample_parse sample_time no_match no_match
      (sample_world ExecRejected HttpTimerFired SshTimerFired 0)
      (sample_server TSsh) new_monitor = (Normal (Some r1), m1) /\
    Result.status r1 = DOWN /\ Result.error r1 = Some "SSH timeout" /\
    checkServer sample_inherited sample_parse sample_time no_match no_match
      (sample_world ExecRejected HttpTimerFired (SshClosed "") 1000)
      (sample_server TSsh) m1 = (Normal (Some r2), m2) /\
    Result.status r2 = DOWN /\ Result.error r2 = Some "SSH timeout" /\
    probes m2 = probes m1 /\ Result.sshInfo r2 = Result.sshInfo r1.
Proof.
  apply (ssh_failure_is_cached sample_inherited sample_parse sample_time
           no_match no_match).
  - reflexivity.
  - reflexivity.
  - reflexivity.
  - simpl. lia.
Defined.

Lemma concurrent_lookups_all_probe_witness :
  probes
    (monitor
       (run_cycle sample_inherited sample_parse sample_time no_match no_match
          (fun i => sample_world ExecRejected HttpTimerFired (SshClosed "")
                      (Z.of_nat i))
          [0; 1]%nat
          [Leaf (sample_server TSsh); Leaf (sample_server TSsh)]
          new_monitor))
  = ["10.0.0.1:22:admin"; "10.0.0.1:22:admin"].
Proof.
  apply (concurrent_lookups_all_probe sample_inherited sample_parse
           sample_time no_match no_match _ _
           [Leaf (sample_server TSsh); Leaf (sample_server TSsh)]
           new_monitor "10.0.0.1:22:admin").
  - repeat constructor.
  - apply lookup_empty.
Defined.

Lemma body_assertion_decides_witness :
  Result.status
    (api_result sample_time sample_asserting_server
       (sample_world ExecRejected (HttpResponse 200 "oops") SshTimerFired 0)
       (on_response_end sample_inherited sample_parse 200 200
          (Some {| path := "status"; value := JStr "ok" |}) "oops"))
  = UNHEALTHY.
Proof.
  destruct (body_assertion_decides sample_inherited sample_parse sample_time
              sample_asserting_server
              (sample_world ExecRejected (HttpResponse 200 "oops")
                 SshTimerFired 0)
              {| path := "status"; value := JStr "ok" |} "oops" eq_refl)
    as (_ & _ & H).
  apply (H "Unexpected token"). reflexivity.
Defined.


Lemma unified_up_iff_witness :
  counts_up
    (Result.status
       (all_result sample_time (sample_server TAll)
          (sample_world (ExecResolved "1 packets received" "")
             (HttpResponse 200 "null") SshTimerFired 0)
          true
          (on_response_end sample_inherited sample_parse 200 200 None "null")
          None new_monitor)) = true.
Proof.
  apply (unified_up_iff sample_inherited sample_parse sample_time
           (sample_server TAll) _ (HttpResponse 200 "null")).
  - reflexivity.
  - split; [reflexivity|]. split; [reflexivity|]. intros addr H. discriminate.
Defined.

Lemma sshPort_default_witness :
  sshPort None (Some "admin") = JNum 22.
Proof.
  destruct (sshPort_default "10.0.0.1" None (Some "admin")) as [_ H].
  destruct H as [H _]; [left; reflexivity|].
  destruct H as [H _]; [reflexivity|]. exact H.
Defined.

Lemma ping_target_up_or_down_witness :
  exists r,
    checkServer sample_inherited sample_parse sample_time no_match no_match
      (sample_world (ExecResolved "1 packets received" "")
         HttpTimerFired SshTimerFired 0)
      (sample_server TPing) new_monitor = (Normal (Some r), new_monitor) /\
    Result.status r = UP.
Proof.
  destruct (ping_target_up_or_down sample_inherited sample_parse sample_time
              no_match no_match
              (sample_world (ExecResolved "1 packets received" "")
                 HttpTimerFired SshTimerFired 0)
              (sample_server TPing) new_monitor eq_refl)
    as (r & Hr & Hs & _).
  exists r. split; [exact Hr|exact Hs].
Defined.

Lemma unknown_type_in_group_rejects_witness :
  exists msg,
    (checkAllServers sample_inherited sample_parse sample_time no_match
       no_match
       (fun i => sample_world ExecRejected HttpTimerFired SshTimerFired 0)
       [0]%nat
       [Leaf (sample_server TPing);
        Group "edge" [sample_server (TOther "group")]]
       new_monitor).1 = Some (Throw msg).
Proof.
  apply (unknown_type_in_group_rejects sample_inherited sample_parse
           sample_time no_match no_match _ _ _ _
           (Server.set_groupName "edge" (sample_server (TOther "group")))
           "group").
  - apply list_elem_of_In. right. left. reflexivity.
  - reflexivity.
  - reflexivity.
Defined.

Lemma ping_wait_whole_seconds_witness :
  1000 * ping_wait true 1500 <= 1500 < 1000 * ping_wait true 1500 + 1000.
Proof. apply (ping_wait_whole_seconds 1500). lia. Defined.

Lemma ssh_target_closed_session_witness :
  exists r m',
    checkServer sample_inherited sample_parse sample_time no_match no_match
      (sample_world ExecRejected HttpTimerFired (SshClosed "") 0)
      (sample_server TSsh) new_monitor = (Normal (Some r), m') /\
    Result.status r = UP /\ formatDetails r m' = "OK".
Proof.
  destruct (ssh_target_closed_session sample_inherited sample_parse
              sample_time no_match no_match
              (sample_world ExecRejected HttpTimerFired (SshClosed "") 0)
              (sample_server TSsh) new_monitor "" eq_refl eq_refl eq_refl)
    as (r & m' & Hr & _ & _ & Hs & Hf).
  exists r, m'. split; [exact Hr|]. split; [exact Hs|]. apply Hf. reflexivity.
Defined.
